(** * agent_crm: the order workflow over a spreadsheet store

    A shallow embedding of [sheets.py] (the row store: [append_order],
    [update_status], [get_orders]) and of the request handlers of [app.py]
    ([new_order], [set_status]), followed by the properties of the
    specification that concern them.

    Python objects are modelled as follows.
    - A [str]-or-[None] value is an [option string]; strings are the UTF-8
      bytes of the source literals, so equality of strings is equality of
      the Python strings.
    - A [dict] with string keys is a [gmap string _]; [d.get(k, dflt)] is
      [dict_get]. The dict of orders that [get_orders] fills, whose order of
      insertion shows in the result, is an association list.
    - The remote sheet is a list of rows, a row a list of cells, as the
      [values.get] call of the remote API returns them for the range A:T; a
      read of column A answers the first cell of each of these rows. A
      [values.update] overwrites the cells it carries, extending the sheet
      when it writes past its end.
    - The functions of [sheets.py] run in a state-and-exception monad over a
      [world]: the sheet, the answers of the remote API (which requests fail
      with an [HttpError]), the requests issued so far, the printed lines and
      the clock. A request of the remote API fails with [HttpError] or not
      at all. The functions of [Module sheets] are the statements that
      follow [service = _get_service()], the world being that service;
      [with_service] puts that first statement back, with the exception it
      can raise.
    - An A1 range is kept in its parts rather than as the string the f-string
      formats; an HTTP response is the [abort], [redirect] or
      [render_template] call that produces it. *)

From stdpp Require Import gmap strings list fin_maps pretty.

Open Scope string_scope.
Open Scope nat_scope.
Open Scope list_scope.

(** ** Values, rows, exceptions *)

Abbreviation value := (option string).
Abbreviation row := (list (option string)).
Abbreviation dict := (gmap string (option string)).

(** Python truthiness of a [str]-or-[None]: [None] and [""] are falsy. *)
Definition truthy (v : value) : bool :=
  match v with
  | Some s => bool_decide (s ≠ "")
  | None => false
  end.

(** [d.get(k, dflt)] *)
Definition dict_get (d : dict) (k : string) (dflt : value) : value :=
  default dflt (d !! k).

(** The exceptions the modelled code can meet; [OutOfFuel] stands for a
    loop that has not ended within the fuel given to its model. *)
Inductive exn :=
  | HttpError (msg : string)
  | IndexError
  | TypeError
  | OutOfFuel.

Inductive outcome (A : Type) :=
  | Ok (a : A)
  | Raise (e : exn).
Arguments Ok {A} a.
Arguments Raise {A} e.

(** ** The remote sheet *)

(** The A1 ranges the program builds: ["Orders!A:A"], ["Orders!A:T"] and
    [f"Orders!A{first}:T{last}"]. The program computes [last] from a [first]
    that is 1 at least, as [first + n - 1]: the subtraction on [nat] never
    truncates. *)
Inductive range :=
  | ColumnA
  | ColumnsAT
  | RowsAT (first last : nat).

Inductive request :=
  | ValuesGet (r : range)
  | ValuesUpdate (r : range) (values : list row).

Record world := World {
  w_sheet : list row;
  (** the answer of the remote API to the n-th request (counted from 0):
      [Some msg] is an [HttpError] whose text is [msg] *)
  w_faults : nat → option string;
  (** requests issued so far, oldest first *)
  w_calls : list request;
  (** lines printed so far, oldest first *)
  w_log : list string;
  (** [datetime.now().strftime("%Y-%m-%d %H:%M")] at the n-th clock reading *)
  w_now : nat → string;
  (** [str(int(time.time()))] at the n-th clock reading *)
  w_epoch : nat → string;
  w_ticks : nat;
}.

Definition with_sheet (s : list row) (w : world) : world :=
  World s (w_faults w) (w_calls w) (w_log w) (w_now w) (w_epoch w) (w_ticks w).
Definition with_call (c : request) (w : world) : world :=
  World (w_sheet w) (w_faults w) (w_calls w ++ [c]) (w_log w) (w_now w)
        (w_epoch w) (w_ticks w).
Definition with_line (l : string) (w : world) : world :=
  World (w_sheet w) (w_faults w) (w_calls w) (w_log w ++ [l]) (w_now w)
        (w_epoch w) (w_ticks w).
Definition with_tick (w : world) : world :=
  World (w_sheet w) (w_faults w) (w_calls w) (w_log w) (w_now w)
        (w_epoch w) (S (w_ticks w)).

(** What a [values.get] of a range answers. *)
Definition read_range (r : range) (s : list row) : list row :=
  match r with
  | ColumnA => take 1 <$> s
  | ColumnsAT => s
  | RowsAT first last => take (S last - first) (drop (first - 1) s)
  end.

(** A [values.update] overwrites the cells it is given and no others. *)
Definition write_cells (v old : row) : row := v ++ drop (length v) old.

Definition write_row (pos : nat) (v : row) (s : list row) : list row :=
  if decide (pos < length s) then alter (write_cells v) pos s
  else s ++ replicate (pos - length s) [] ++ [v].

Fixpoint write_rows (pos : nat) (vs : list row) (s : list row) : list row :=
  match vs with
  | [] => s
  | v :: vs' => write_rows (S pos) vs' (write_row pos v s)
  end.

Definition range_first (r : range) : nat :=
  match r with
  | RowsAT first _ => first
  | _ => 1
  end.

Definition write_range (r : range) (vs : list row) (s : list row) : list row :=
  write_rows (range_first r - 1) vs s.

(** ** The monad *)

Definition M (A : Type) : Type := world → outcome A * world.

Definition ret {A} (a : A) : M A := λ w, (Ok a, w).

Definition bind {A B} (m : M A) (k : A → M B) : M B :=
  λ w, match m w with
       | (Ok a, w') => k a w'
       | (Raise e, w') => (Raise e, w')
       end.

Notation "x ←' m ; k" := (bind m (λ x, k))
  (at level 20, m at level 100, k at level 200, only parsing).
Notation "m ;;' k" := (bind m (λ _, k))
  (at level 100, k at level 200, right associativity, only parsing).

Definition raise {A} (e : exn) : M A := λ w, (Raise e, w).

(** [try: body  except HttpError as err: handler(err)] *)
Definition try_except_HttpError {A} (body : M A) (handler : string → M A) : M A :=
  λ w, match body w with
       | (Raise (HttpError msg), w') => handler msg w'
       | r => r
       end.

Definition print (line : string) : M unit := λ w, (Ok tt, with_line line w).

Definition datetime_now : M string :=
  λ w, (Ok (w_now w (w_ticks w)), with_tick w).

Definition time_time : M string :=
  λ w, (Ok (w_epoch w (w_ticks w)), with_tick w).

(** [service.spreadsheets().values().get(range=r).execute().get("values", [])] *)
Definition values_get (r : range) : M (list row) :=
  λ w, match w_faults w (length (w_calls w)) with
       | Some msg => (Raise (HttpError msg), with_call (ValuesGet r) w)
       | None => (Ok (read_range r (w_sheet w)), with_call (ValuesGet r) w)
       end.

(** [service.spreadsheets().values().update(range=r, body={"values": vs}).execute()] *)
Definition values_update (r : range) (vs : list row) : M unit :=
  λ w, match w_faults w (length (w_calls w)) with
       | Some msg => (Raise (HttpError msg), with_call (ValuesUpdate r vs) w)
       | None =>
           (Ok tt, with_sheet (write_range r vs (w_sheet w))
                     (with_call (ValuesUpdate r vs) w))
       end.

(** ** sheets.py *)

Module sheets.

(** The 20-cell row that [append_order] builds for one item. *)
Definition order_row (order_data item : dict) (now : string) : row :=
  [ dict_get order_data "id" (Some "");
    dict_get order_data "status" (Some "оформлен");
    dict_get order_data "date" (Some now);
    dict_get item "sku" (Some "");
    dict_get order_data "channel" (Some "");
    dict_get item "supplier" (Some "");
    dict_get item "photo" (Some "");
    dict_get item "quantity" (Some "");
    dict_get item "order_sum" (Some "");
    dict_get item "purchase_sum" (Some "");
    dict_get order_data "percent" (Some "");
    dict_get order_data "extra_costs" (Some "");
    dict_get order_data "profit" (Some "");
    dict_get order_data "accruals" (Some "");
    dict_get order_data "customer_name" (Some "");
    dict_get order_data "phone" (Some "");
    dict_get order_data "messenger" (Some "");
    dict_get order_data "address" (Some "");
    dict_get order_data "logistics" (Some "");
    dict_get item "comment" (Some "") ].

(** The [for item in items] loop; the default of the date is evaluated, and
    so the clock read, once per item. *)
Fixpoint build_rows (order_data : dict) (items : list dict) : M (list row) :=
  match items with
  | [] => ret []
  | item :: rest =>
      now ←' datetime_now;
      values ←' build_rows order_data rest;
      ret (order_row order_data item now :: values)
  end.

Definition append_order (order_data : dict) (items : list dict) : M unit :=
  values ←' build_rows order_data items;
  next ←' try_except_HttpError
            (existing ←' values_get ColumnA;
             ret (Some (length existing + 1)))
            (λ err, print ("Ошибка при чтении таблицы: " +:+ err);;'
                    ret None);
  match next with
  | None => ret tt
  | Some next_row =>
      try_except_HttpError
        (values_update (RowsAT next_row (next_row + length values - 1)) values)
        (λ err, print ("Ошибка при записи таблицы: " +:+ err))
  end.

(** [row and row[0] == order_id] *)
Definition row_matches (order_id : string) (r : row) : bool :=
  match r with
  | [] => false
  | c :: _ => bool_decide (c = Some order_id)
  end.

(** [while len(row) < n: row.append("")] *)
Definition pad_to (n : nat) (r : row) : row :=
  r ++ replicate (n - length r) (Some "").

(** The body of the branch: pad to two cells, then [row[1] = new_status]. *)
Definition set_status_cell (new_status : string) (r : row) : row :=
  <[1 := Some new_status]> (pad_to 2 r).

(** The first loop of [update_status], over [enumerate(rows, start=idx)]. *)
Fixpoint collect_updates (order_id new_status : string) (idx : nat)
    (rows : list row) : list (nat * row) :=
  match rows with
  | [] => []
  | r :: rest =>
      if row_matches order_id r
      then (idx, set_status_cell new_status r)
             :: collect_updates order_id new_status (S idx) rest
      else collect_updates order_id new_status (S idx) rest
  end.

(** The second loop: one [values.update] per collected row. *)
Fixpoint send_updates (updates : list (nat * row)) : M unit :=
  match updates with
  | [] => ret tt
  | (idx, r) :: rest =>
      values_update (RowsAT idx idx) [r];;'
      send_updates rest
  end.

Definition update_status (order_id new_status : string) : M unit :=
  try_except_HttpError
    (rows ←' values_get ColumnsAT;
     send_updates (collect_updates order_id new_status 1 rows))
    (λ err, print ("Ошибка при обновлении статуса: " +:+ err)).

(** The aggregated order of [get_orders] and the summary of one of its
    items, the two dict shapes the function builds. *)
Record item_summary := ItemSummary {
  i_sku : value;
  i_quantity : value;
  i_order_sum : value;
  i_purchase_sum : value;
  i_supplier : value;
}.

Record order := Order {
  o_id : value;
  o_status : value;
  o_date : value;
  o_customer_name : value;
  o_items : list item_summary;
}.

(** [orders: Dict[str, Dict]]: a Python dict keeps its keys in the order of
    their first insertion, and [list(orders.values())] returns them so. *)
Abbreviation orders_dict := (list (option string * order)).

Definition dict_keys (orders : orders_dict) : list value := fst <$> orders.

(** [orders[oid]["items"].append(item)] *)
Definition append_item (oid : value) (item : item_summary)
    (orders : orders_dict) : orders_dict :=
  (λ kv : value * order,
     if bool_decide (kv.1 = oid)
     then (kv.1, Order (o_id kv.2) (o_status kv.2) (o_date kv.2)
                       (o_customer_name kv.2) (o_items kv.2 ++ [item]))
     else kv) <$> orders.

(** [row[i]]: an index out of range raises. *)
Definition getitem (r : row) (i : nat) : M value :=
  match r !! i with
  | Some c => ret c
  | None => raise IndexError
  end.

(** [row[i] if len(row) > i else ""] *)
Definition cell_or_empty (r : row) (i : nat) : M value :=
  if bool_decide (i < length r) then getitem r i else ret (Some "").

(** The body of [for row in rows] in [get_orders]. *)
Definition process_row (status : value) (orders : orders_dict) (r : row)
    : M orders_dict :=
  if bool_decide (r = []) || bool_decide (length r < 2) then ret orders
  else
    oid ←' getitem r 0;
    st ←' cell_or_empty r 1;
    if truthy status && bool_decide (st ≠ status) then ret orders
    else
      orders1 ←' (if bool_decide (oid ∉ dict_keys orders)
                  then
                    date ←' cell_or_empty r 2;
                    customer_name ←' cell_or_empty r 14;
                    ret (orders ++ [(oid, Order oid st date customer_name [])])
                  else ret orders);
      sku ←' cell_or_empty r 3;
      quantity ←' cell_or_empty r 7;
      order_sum ←' cell_or_empty r 8;
      purchase_sum ←' cell_or_empty r 9;
      supplier ←' cell_or_empty r 5;
      ret (append_item oid
             (ItemSummary sku quantity order_sum purchase_sum supplier)
             orders1).

Fixpoint aggregate (status : value) (orders : orders_dict) (rows : list row)
    : M orders_dict :=
  match rows with
  | [] => ret orders
  | r :: rest =>
      orders' ←' process_row status orders r;
      aggregate status orders' rest
  end.

Definition get_orders (status : value) : M (list order) :=
  read ←' try_except_HttpError
            (rows ←' values_get ColumnsAT; ret (Some rows))
            (λ err, print ("Ошибка при чтении заказов: " +:+ err);;'
                    ret None);
  match read with
  | None => ret []
  | Some rows =>
      orders ←' aggregate status [] rows;
      ret (snd <$> orders)
  end.

(** The OAuth2 credential of [_get_service], by the attributes the function
    reads, and the world it works in: the token file beside the module, and
    the library calls that can fail ([None] is a raised exception). *)
Record credentials := Credentials {
  valid : bool;
  expired : bool;
  refresh_token : option string;
  to_json : string;
}.

Inductive auth_event :=
  | Refreshed
  | FlowRun
  | TokenWritten (content : string).

Record auth_world := AuthWorld {
  (** the content of [token.json], [None] when [os.path.exists] is false *)
  token_file : option string;
  (** [Credentials.from_authorized_user_file] on a file of this content *)
  from_authorized_user_file : string → option credentials;
  (** the credential after [creds.refresh(Request())] *)
  refresh : credentials → option credentials;
  (** [InstalledAppFlow.from_client_secrets_file(...).run_local_server(port=0)] *)
  run_local_server : option credentials;
  auth_events : list auth_event;
}.

Definition with_event (e : auth_event) (a : auth_world) : auth_world :=
  AuthWorld (token_file a) (from_authorized_user_file a) (refresh a)
            (run_local_server a) (auth_events a ++ [e]).

(** [with open(token_path, "w") as f: f.write(creds.to_json())] *)
Definition write_token (c : credentials) (a : auth_world) : auth_world :=
  AuthWorld (Some (to_json c)) (from_authorized_user_file a) (refresh a)
            (run_local_server a) (auth_events a ++ [TokenWritten (to_json c)]).

(** [_get_service]: the service is the credential it is built with; [None] is
    an exception of one of the library calls, which the function lets
    through. *)
Definition _get_service (a : auth_world) : option credentials * auth_world :=
  let loaded :=
    match token_file a with
    | Some content =>
        match from_authorized_user_file a content with
        | Some c => Some (Some c)
        | None => None
        end
    | None => Some None
    end in
  match loaded with
  | None => (None, a)
  | Some creds =>
      if match creds with Some c => negb (valid c) | None => true end then
        let renewed :=
          match creds with
          | Some c =>
              if expired c && truthy (refresh_token c)
              then (refresh a c, with_event Refreshed a)
              else (run_local_server a, with_event FlowRun a)
          | None => (run_local_server a, with_event FlowRun a)
          end in
        match renewed with
        | (Some c, a') => (Some c, write_token c a')
        | (None, a') => (None, a')
        end
      else (creds, a)
  end.

End sheets.

(** ** app.py *)

Module app.

Inductive http_method := GET | POST.

(** The parts of a Flask request the handlers read: [request.args],
    [request.method], [request.form]. *)
Record http_request := Request {
  args : gmap string string;
  method : http_method;
  form : gmap string string;
}.

Inductive template_context :=
  | NewOrderForm (uid : value) (channels logistics suppliers : list string).

Inductive response :=
  | Abort (code : nat)
  | Redirect (endpoint : string) (values : list (string * value))
  | RenderTemplate (template : string) (context : template_context).

Definition ROLE_MAP : gmap string string := {[ "379185153" := "admin" ]}.

(** [ROLE_MAP.get(str(uid))]; the role map is a parameter of the handlers,
    [ROLE_MAP] above being the one the source ships. *)
Definition get_role (role_map : gmap string string) (uid : string) : value :=
  role_map !! uid.

(** [uid = request.args.get("uid"); role = get_role(uid) if uid else None] *)
Definition request_uid (req : http_request) : value := args req !! "uid".

Definition request_role (role_map : gmap string string) (req : http_request)
    : value :=
  match request_uid req with
  | Some uid => if truthy (Some uid) then get_role role_map uid else None
  | None => None
  end.

(** The dict of one item, read from the fields [item_{index}_*]. *)
Definition item_prefix (index : nat) : string :=
  "item_" +:+ pretty index +:+ "_".

Definition item_fields (form : gmap string string) (index : nat) : dict :=
  let prefix := item_prefix index in
  list_to_map
    [ ("sku", form !! (prefix +:+ "sku"));
      ("supplier", form !! (prefix +:+ "supplier"));
      ("photo", form !! (prefix +:+ "photo"));
      ("quantity", form !! (prefix +:+ "quantity"));
      ("order_sum", form !! (prefix +:+ "order_sum"));
      ("purchase_sum", form !! (prefix +:+ "purchase_sum"));
      ("comment", form !! (prefix +:+ "comment")) ].

(** The [while True] loop of [new_order] from [index] on; [None] when the
    fuel runs out before the loop reaches its [break]. *)
Fixpoint item_loop (fuel index : nat) (form : gmap string string)
    : option (list dict) :=
  match fuel with
  | 0 => None
  | S fuel' =>
      let sku := form !! (item_prefix index +:+ "sku") in
      if negb (truthy sku) then Some []
      else
        match item_loop fuel' (S index) form with
        | Some items => Some (item_fields form index :: items)
        | None => None
        end
  end.

(** A form has finitely many fields: one more round than it has fields is
    enough for the loop to stop (see [item_loop_fuel]). *)
Definition parse_items (form : gmap string string) : option (list dict) :=
  item_loop (S (size form)) 0 form.

(** [order_data[k]] for a key the handler has put there. *)
Definition dict_item (d : dict) (k : string) : value := default None (d !! k).

Definition form_order_data (form : gmap string string) : dict :=
  list_to_map
    [ ("id", form !! "order_id");
      ("status", form !! "status");
      ("date", form !! "date");
      ("channel", form !! "channel");
      ("customer_name", form !! "customer_name");
      ("phone", form !! "phone");
      ("messenger", form !! "messenger");
      ("address", form !! "address");
      ("logistics", form !! "logistics");
      ("percent", Some "");
      ("extra_costs", Some "");
      ("profit", Some "");
      ("accruals", Some "") ].

Definition channels : list string :=
  [ "Телеграм"; "WKO"; "Ав-1"; "Ав-2"; "ТГ Постоянник"; "Викео постоянник";
    "Постоянник"; "Дропер"; "%" ].

Definition logistics : list string :=
  [ "СДЕК"; "Авито СДЕК"; "Авито Почта РФ"; "Авито Boxberry"; "Почта РФ";
    "Самовывоз"; "Достависта"; "Яндекс"; "x EXMAIL"; "Boxberry";
    "Авито Яндекс"; "Наш курьер"; "JDE"; "Авито Сберлогистика"; "Авито DPD";
    "Мегатранс"; "МэджикТранс"; "Деловые Линии"; "КИТ"; "ПЭК"; "Энергия";
    "5POST"; "КСЕ"; "Байкал" ].

Definition suppliers : list string :=
  [ "У Арута"; "Мой склад"; "Пос-Y1 склад"; "Пос-Y2  склад"; "Пос-Y30 склад";
    "Пос-S1 склад"; "Пос-S2 склад"; "Пос-K1 склад"; "Пос-Y1"; "Пос-Y2";
    "Пос-Y3"; "Пос-Y4"; "Пос-Y5"; "Пос-Y6"; "Пос-Y7"; "Пос-Y8"; "Пос-Y9";
    "Пос-Y10"; "Пос-Y11"; "Пос-Y12"; "Пос-Y20"; "Пос-Y31"; "Пост-Y30";
    "Пос-Y13"; "Пост-Y15"; "Пост-Y14"; "Пост-17"; "Через Сахи" ].

(** The POST branch of [new_order]. *)
Definition submit_order (uid : value) (form : gmap string string) : M response :=
  let order_data := form_order_data form in
  match parse_items form with
  | None => raise OutOfFuel
  | Some items =>
      order_data ←' (if negb (truthy (dict_item order_data "id"))
                     then t ←' time_time; ret (<["id" := Some t]> order_data)
                     else ret order_data);
      order_data ←' (if negb (truthy (dict_item order_data "date"))
                     then t ←' datetime_now; ret (<["date" := Some t]> order_data)
                     else ret order_data);
      let order_data := <["status" := Some "оформлен"]> order_data in
      sheets.append_order order_data items;;'
      ret (Redirect "index" [("uid", uid)])
  end.

Definition new_order (role_map : gmap string string) (req : http_request)
    : M response :=
  let uid := request_uid req in
  let role := request_role role_map req in
  if bool_decide (role ∉ [Some "manager"; Some "admin"]) then ret (Abort 403)
  else
    match method req with
    | POST => submit_order uid (form req)
    | GET =>
        ret (RenderTemplate "new_order.html"
               (NewOrderForm uid channels logistics suppliers))
    end.

(** The [allowed] table of [set_status]; [None] is the entry of the admin. *)
Definition allowed : gmap string (option (gmap string string)) :=
  {[ "picker" := Some {[ "оформлен" := "ожидает поставки";
                         "ожидает поставки" := "сборка" ]};
     "courier" := Some {[ "сборка" := "доставка";
                          "доставка" := "завершён" ]};
     "admin" := None ]}.

(** [cur_status not in transitions or transitions[cur_status] != new_status] *)
Definition transition_denied (transitions : gmap string string)
    (cur_status : value) (new_status : string) : bool :=
  match cur_status ≫= (transitions !!.) with
  | None => true
  | Some target => bool_decide (target ≠ new_status)
  end.

(** The check of the non-admin branch: [Some r] is an early [return r]. *)
Definition check_transition (transitions : option (gmap string string))
    (order_id new_status : string) : M (option response) :=
  orders ←' sheets.get_orders None;
  match List.find (λ o, bool_decide (sheets.o_id o = Some order_id)) orders with
  | None => ret (Some (Abort 404))
  | Some order_info =>
      let cur_status := sheets.o_status order_info in
      match transitions with
      | None => raise TypeError
      | Some transitions =>
          if transition_denied transitions cur_status new_status
          then ret (Some (Abort 403))
          else ret None
      end
  end.

Definition set_status (role_map : gmap string string) (req : http_request)
    (order_id new_status : string) : M response :=
  let uid := request_uid req in
  let role := request_role role_map req in
  match role ≫= (allowed !!.) with
  | None => ret (Abort 403)
  | Some transitions =>
      denied ←' (if bool_decide (role ≠ Some "admin")
                 then check_transition transitions order_id new_status
                 else ret None);
      match denied with
      | Some r => ret r
      | None =>
          sheets.update_status order_id new_status;;'
          ret (Redirect "orders" [("status", Some new_status); ("uid", uid)])
      end
  end.

(** What the two viewing handlers render: [index.html] with the role and
    the identity, [orders.html] with the identity, the status asked for, the
    orders read and the role. *)
Inductive view :=
  | IndexView (role uid : value)
  | OrdersView (uid : value) (status : string) (orders : list sheets.order)
               (role : value).

Definition index (role_map : gmap string string) (req : http_request) : M view :=
  let uid := request_uid req in
  let role := request_role role_map req in
  ret (IndexView role uid).

Definition orders (role_map : gmap string string) (req : http_request)
    (status : string) : M view :=
  let uid := request_uid req in
  let role := request_role role_map req in
  orders_list ←' sheets.get_orders
                   (if bool_decide (status ≠ "all") then Some status else None);
  ret (OrdersView uid status orders_list role).

End app.

(** ** bot.py *)

Module bot.

Definition ROLE_MAP : gmap string string := ∅.

(** [os.getenv("WEBAPP_URL", "http://localhost:5000")] *)
Definition WEBAPP_URL (env : option string) : string :=
  default "http://localhost:5000" env.

Record button := KeyboardButton {
  button_text : string;
  web_app_url : string;
}.

Record reply := Reply {
  reply_text : string;
  reply_keyboard : list (list button);
  resize_keyboard : bool;
}.

Definition newline : string := String (Ascii.ascii_of_nat 10) "".

Definition welcome : string :=
  "Добро пожаловать в CRM! Нажмите кнопку, чтобы открыть мини‑приложение.".

Definition advisory : string :=
  newline +:+ newline +:+ "У вас пока не назначена роль. Обратитесь к администратору.".

(** The [/start] command for the Telegram user of identifier [uid]: the
    reply sent with [reply_text]. *)
Definition start (role_map : gmap string string) (webapp_url : string)
    (uid : Z) : reply :=
  let role := role_map !! pretty uid in
  let url_with_uid := webapp_url +:+ "?uid=" +:+ pretty uid in
  let button := KeyboardButton "Открыть CRM" url_with_uid in
  let text := welcome in
  let text := if negb (truthy role) then text +:+ advisory else text in
  Reply text [[button]] true.

End bot.

(** ** Notions the statements use *)

(** No request of the remote API fails. *)
Definition no_faults (w : world) : Prop := ∀ n, w_faults w n = None.

(** Among the requests issued between [w] and [w'], one failed. *)
Definition failed_between (w w' : world) : Prop :=
  ∃ n, length (w_calls w) ≤ n < length (w_calls w') ∧ is_Some (w_faults w n).

(** Between [w] and [w'] no request follows a failed one. *)
Definition no_retry (w w' : world) : Prop :=
  ∀ n, length (w_calls w) ≤ n < length (w_calls w') →
       is_Some (w_faults w n) → length (w_calls w') = S n.

(** The roles that may create an order, and the fixed transition table of
    the other roles, as the specification lists them. *)
Definition creator_roles : list value := [Some "manager"; Some "admin"].

Definition transition_table : list (string * string * string) :=
  [ ("picker", "оформлен", "ожидает поставки");
    ("picker", "ожидает поставки", "сборка");
    ("courier", "сборка", "доставка");
    ("courier", "доставка", "завершён") ].

(** What [update_status] is to make of a row of the table. *)
Definition update_row (order_id new_status : string) (r : row) : row :=
  if sheets.row_matches order_id r
  then sheets.set_status_cell new_status r else r.

(** The request that writes one collected row back. *)
Definition update_request (ir : nat * row) : request :=
  ValuesUpdate (RowsAT ir.1 ir.1) [ir.2].

(** A row read as the 20-column layout reads it: a cell the row does not
    have is the empty string. *)
Definition cell (r : row) (i : nat) : value := default (Some "") (r !! i).

Definition row_summary (r : row) : sheets.item_summary :=
  sheets.ItemSummary (cell r 3) (cell r 7) (cell r 8) (cell r 9) (cell r 5).

(** The rows the aggregation does not pass over: two cells at least, and the
    status of the filter when a filter is given. *)
Definition kept (status : value) (r : row) : bool :=
  bool_decide (2 ≤ length r)
  && negb (truthy status && bool_decide (cell r 1 ≠ status)).

(** One round of the aggregation as a function of the padded row. *)
Definition step (status : value) (orders : sheets.orders_dict) (r : row)
    : sheets.orders_dict :=
  if kept status r then
    sheets.append_item (cell r 0) (row_summary r)
      (if bool_decide (cell r 0 ∈ sheets.dict_keys orders) then orders
       else orders ++ [(cell r 0,
                        sheets.Order (cell r 0) (cell r 1) (cell r 2)
                                     (cell r 14) [])])
  else orders.

(** Row [r] is not passed over and carries the identifier [oid]. *)
Definition carries (status : value) (oid : value) (r : row) : bool :=
  kept status r && bool_decide (cell r 0 = oid).

(** The first row that carries an identifier, and the items of all rows
    that carry it, in table order. *)
Definition first_kept (status : value) (rows : list row) (oid : value)
    : option row :=
  List.find (carries status oid) rows.

Definition items_of (status : value) (rows : list row) (oid : value)
    : list sheets.item_summary :=
  row_summary <$> List.filter (carries status oid) rows.

(** The entry of an identifier after the aggregation of [rows]: status, date
    and customer of the first row that carries it, items of all such rows. *)
Definition described (status : value) (rows : list row)
    (kv : value * sheets.order) : Prop :=
  sheets.o_id kv.2 = kv.1 ∧
  ∃ r : row,
    first_kept status rows kv.1 = Some r ∧
    sheets.o_status kv.2 = cell r 1 ∧
    sheets.o_date kv.2 = cell r 2 ∧
    sheets.o_customer_name kv.2 = cell r 14 ∧
    sheets.o_items kv.2 = items_of status rows kv.1.

Definition aggregated (status : value) (rows : list row)
    (orders : sheets.orders_dict) : Prop :=
  NoDup (sheets.dict_keys orders) ∧
  (∀ k, k ∈ sheets.dict_keys orders ↔
        ∃ r : row, r ∈ rows ∧ carries status k r = true) ∧
  Forall (described status rows) orders.

(** The first row of the table that carries the identifier, whatever its
    length: the first-seen row as the specification words it. *)
Definition first_row (rows : list row) (oid : value) : option row :=
  List.find (λ r : row, bool_decide (r !! 0 = Some oid)) rows.

(** The first row of two cells or more that carries the identifier. *)
Definition first_seen (rows : list row) (oid : value) : option row :=
  first_kept None rows oid.

(** The reading of a filtered result by the first row of each identifier,
    and of an unfiltered one by the identifiers present in any row. *)
Definition filtered_by_first_row (f : string) (rows : list row)
    (res : list sheets.order) : Prop :=
  ∀ k, k ∈ sheets.o_id <$> res ↔
       ∃ r : row, first_row rows k = Some r ∧ r !! 1 = Some (Some f).

Definition one_per_identifier (rows : list row) (res : list sheets.order)
    : Prop :=
  ∀ k, k ∈ sheets.o_id <$> res ↔ ∃ r : row, r ∈ rows ∧ r !! 0 = Some k.

(** All rows of two cells or more that share an identifier share their
    status: the invariant [update_status] is there to keep. *)
Definition consistent (rows : list row) : Prop :=
  ∀ r1 r2 : row, r1 ∈ rows → r2 ∈ rows → 2 ≤ length r1 → 2 ≤ length r2 →
                 r1 !! 0 = r2 !! 0 → r1 !! 1 = r2 !! 1.

(** A store computation that leaves the log alone and stops at the first
    request that fails, raising its error. *)
Definition store_run {A} (w : world) (r : outcome A) (w' : world) : Prop :=
  w_faults w' = w_faults w ∧ w_log w' = w_log w ∧
  length (w_calls w) ≤ length (w_calls w') ∧
  match r with
  | Ok _ =>
      ∀ n, length (w_calls w) ≤ n < length (w_calls w') → w_faults w n = None
  | Raise (HttpError msg) =>
      ∃ n, length (w_calls w') = S n ∧ length (w_calls w) ≤ n ∧
           w_faults w n = Some msg ∧
           ∀ k, length (w_calls w) ≤ k < n → w_faults w k = None
  | Raise _ => False
  end.

(** What the caller of a store operation can see of a failure: at most one
    request failed, it was the last one, and it left one line in the log. *)
Definition swallowed (w w' : world) : Prop :=
  no_retry w w' ∧
  (failed_between w w' → ∃ line, w_log w' = w_log w ++ [line]) ∧
  (¬ failed_between w w' → w_log w' = w_log w).

(** The rows [append_order] builds when its first clock reading is the
    [t]-th: one row per item, the n-th of them dated by reading [t + n]. *)
Fixpoint rows_at (order_data : dict) (now : nat → string) (t : nat)
    (items : list dict) : list row :=
  match items with
  | [] => []
  | item :: rest =>
      sheets.order_row order_data item (now t)
        :: rows_at order_data now (S t) rest
  end.

(** The columns of the layout that hold fields of the order, the date apart
    (column 2), and those that hold fields of the item. *)
Definition order_columns : list nat := [0; 1; 4; 10; 11; 12; 13; 14; 15; 16; 17; 18].
Definition date_column : nat := 2.
Definition item_columns : list nat := [3; 5; 6; 7; 8; 9; 19].

(** The two inner dicts of [allowed]. *)
Definition picker_transitions : gmap string string :=
  {[ "оформлен" := "ожидает поставки"; "ожидает поставки" := "сборка" ]}.
Definition courier_transitions : gmap string string :=
  {[ "сборка" := "доставка"; "доставка" := "завершён" ]}.

(** Where a successful status change sends the client. *)
Definition listing (new_status : string) (uid : value) : app.response :=
  app.Redirect "orders" [("status", Some new_status); ("uid", uid)].

(** The form field that holds the SKU of the item of an index. *)
Definition sku_key (index : nat) : string := app.item_prefix index +:+ "sku".

(** ** Sample data *)

Definition one_picker : gmap string string := {[ "345678901" := "picker" ]}.

Definition picker_submission : app.http_request :=
  app.Request {[ "uid" := "345678901" ]} app.POST
              {[ "order_id" := "17"; "item_0_sku" := "A-1" ]}.

Definition anonymous_visit : app.http_request :=
  app.Request ∅ app.GET ∅.

(** An order without a date, two items, and a clock that passes from one
    minute to the next between the two rows. *)
Definition undated_order : dict := {[ "id" := Some "17" ]}.
Definition two_items : list dict :=
  [ {[ "sku" := Some "A-1" ]}; {[ "sku" := Some "B-2" ]} ].
Definition ticking_world (s : list row) : world :=
  World s (λ _, None) [] []
        (λ n, match n with 0 => "2024-05-01 10:59" | _ => "2024-05-01 11:00" end)
        (λ _, "1714550400") 0.

(** A table whose two rows of one order disagree on the status, a table
    with a row of one cell, and a table of one well-formed row. *)
Definition split_sheet : list row :=
  [ [Some "17"; Some "оформлен"]; [Some "17"; Some "сборка"] ].
Definition stub_sheet : list row := [ [Some "18"] ].
Definition plain_sheet : list row := [ [Some "19"; Some "оформлен"] ].

(** A world whose store answers every request and whose clock stands. *)
Definition quiet_world (s : list row) : world :=
  World s (λ _, None) [] [] (λ _, "2024-05-01 10:00") (λ _, "1714550400") 0.

Definition admin_map : gmap string string := app.ROLE_MAP.

Definition admin_visit : app.http_request :=
  app.Request {[ "uid" := "379185153" ]} app.GET ∅.

Definition picker_visit : app.http_request :=
  app.Request {[ "uid" := "345678901" ]} app.GET ∅.

Definition one_manager : gmap string string := {[ "234567890" := "manager" ]}.

(** A form with the fields of items 0 and 2 and none of item 1. *)
Definition gap_form : gmap string string :=
  {[ "order_id" := "17";
     "item_0_sku" := "A-1"; "item_0_quantity" := "2";
     "item_2_sku" := "C-3"; "item_2_quantity" := "1" ]}.

Definition manager_submission : app.http_request :=
  app.Request {[ "uid" := "234567890" ]} app.POST gap_form.

(** ** Notions of the further properties *)

(** The identifiers of the rows the aggregation does not pass over, in table
    order, and that list with every identifier at its first place only. *)
Definition kept_ids (status : value) (rows : list row) : list value :=
  (λ r : row, cell r 0) <$> List.filter (kept status) rows.

Definition first_occurrences (l : list value) : list value :=
  reverse (remove_dups (reverse l)).

(** The summary [get_orders] makes of an item stored by [append_order], and
    the order it makes of an order so stored whose first row is dated by
    the clock reading [now]. *)
Definition stored_item (item : dict) : sheets.item_summary :=
  sheets.ItemSummary (dict_get item "sku" (Some ""))
    (dict_get item "quantity" (Some "")) (dict_get item "order_sum" (Some ""))
    (dict_get item "purchase_sum" (Some "")) (dict_get item "supplier" (Some "")).

Definition stored_order (order_data : dict) (now : string) (items : list dict)
    : sheets.order :=
  sheets.Order (dict_get order_data "id" (Some ""))
    (dict_get order_data "status" (Some "оформлен"))
    (dict_get order_data "date" (Some now))
    (dict_get order_data "customer_name" (Some ""))
    (stored_item <$> items).

(** What [new_order] stores of a submitted form: the identifier and the date
    of the form, or of the clock when the form has none (the identifier is
    read first), and the row of the item of an index. *)
Definition submitted_id (form : gmap string string) (w : world) : value :=
  if truthy (form !! "order_id") then form !! "order_id"
  else Some (w_epoch w (w_ticks w)).

Definition submitted_date (form : gmap string string) (w : world) : value :=
  if truthy (form !! "date") then form !! "date"
  else Some (w_now w (if truthy (form !! "order_id") then w_ticks w
                      else S (w_ticks w))).

Definition submitted_order_data (form : gmap string string) (w : world) : dict :=
  <["status" := Some "оформлен"]>
    (<["date" := submitted_date form w]>
       (<["id" := submitted_id form w]> (app.form_order_data form))).

Definition submitted_row (form : gmap string string) (w : world) (i : nat)
    : row :=
  [ submitted_id form w; Some "оформлен"; submitted_date form w;
    form !! (app.item_prefix i +:+ "sku"); form !! "channel";
    form !! (app.item_prefix i +:+ "supplier");
    form !! (app.item_prefix i +:+ "photo");
    form !! (app.item_prefix i +:+ "quantity");
    form !! (app.item_prefix i +:+ "order_sum");
    form !! (app.item_prefix i +:+ "purchase_sum");
    Some ""; Some ""; Some ""; Some "";
    form !! "customer_name"; form !! "phone"; form !! "messenger";
    form !! "address"; form !! "logistics";
    form !! (app.item_prefix i +:+ "comment") ].

(** The summary of the item of an index, as the form holds it. *)
Definition submitted_item (form : gmap string string) (i : nat)
    : sheets.item_summary :=
  sheets.ItemSummary (form !! (app.item_prefix i +:+ "sku"))
    (form !! (app.item_prefix i +:+ "quantity"))
    (form !! (app.item_prefix i +:+ "order_sum"))
    (form !! (app.item_prefix i +:+ "purchase_sum"))
    (form !! (app.item_prefix i +:+ "supplier")).

(** The world after the clock readings of a submission. *)
Definition after_defaults (form : gmap string string) (w : world) : world :=
  (if truthy (form !! "date") then id else with_tick)
    ((if truthy (form !! "order_id") then id else with_tick) w).

(** The number of items over all orders of a result. *)
Definition item_count (res : list sheets.order) : nat :=
  sum_list ((λ o, length (sheets.o_items o)) <$> res).

(** A valid credential, and a machine without token file whose
    interactive flow yields it. *)
Definition granted_credential : sheets.credentials :=
  sheets.Credentials true false (Some "1//0g") "{}".

Definition first_start : sheets.auth_world :=
  sheets.AuthWorld None (λ _, Some granted_credential) (λ c, Some c)
                   (Some granted_credential) [].

(** ** The store functions from their first statement *)

(** What the caller of a store function gets: the exception of
    [_get_service], around which there is no handler, or the outcome of the
    statements that follow. *)
Inductive call_outcome (A : Type) :=
  | ServiceRaised
  | Returned (r : outcome A).
Arguments ServiceRaised {A}.
Arguments Returned {A} r.

(** [service = _get_service()] is the first statement of [append_order],
    [update_status] and [get_orders], before their [try]; [body] is the
    rest of the function, as [Module sheets] has it. *)
Definition with_service {A} (body : M A) (a : sheets.auth_world) (w : world)
    : call_outcome A * world * sheets.auth_world :=
  match sheets._get_service a with
  | (Some _, a') => let (r, w') := body w in (Returned r, w', a')
  | (None, a') => (ServiceRaised, w, a')
  end.

(** An expired credential in the token file of a machine that cannot reach
    the authorisation server: the refresh raises. *)
Definition stale_credential : sheets.credentials :=
  sheets.Credentials false true (Some "1//0g") "{}".

Definition offline_start : sheets.auth_world :=
  sheets.AuthWorld (Some "{}") (λ _, Some stale_credential) (λ _, None)
                   None [].

(** A table whose one row has the empty string for identifier, with a
    status beside it. *)
Definition blank_sheet : list row := [ [Some ""; Some "оформлен"] ].

(** A user the role map of neither program knows. *)
Definition stranger_visit : app.http_request :=
  app.Request {[ "uid" := "345678901" ]} app.POST ∅.

(** * Properties *)

(** ** Creating an order *)

Lemma new_order_denied role_map req w :
  app.request_role role_map req ∉ creator_roles →
  app.new_order role_map req w = (Ok (app.Abort 403), w).
Proof.
  intros Hrole. unfold app.new_order.
  rewrite bool_decide_eq_true_2; done.
Qed.

Lemma request_role_no_uid role_map req :
  app.args req !! "uid" = None → app.request_role role_map req = None.
Proof. unfold app.request_role, app.request_uid. by intros ->. Qed.

Lemma request_role_unassigned role_map req uid :
  app.args req !! "uid" = Some uid → role_map !! uid = None →
  app.request_role role_map req = None.
Proof.
  unfold app.request_role, app.request_uid, app.get_role. intros -> ->.
  by destruct (truthy _).
Qed.

Lemma none_not_creator : None ∉ creator_roles.
Proof.
  unfold creator_roles. rewrite !elem_of_cons, elem_of_nil.
  intros [H|[H|[]]]; discriminate.
Qed.

Lemma not_creator (r : string) :
  r ≠ "manager" → r ≠ "admin" → Some r ∉ creator_roles.
Proof.
  intros Hm Ha. unfold creator_roles. rewrite !elem_of_cons, elem_of_nil.
  intros [H|[H|[]]]; congruence.
Qed.

(** C6. For every role outside manager and admin, the unassigned role
    included (no identity in the request, or an identity the role map does not
    know), a submitted creation form is answered 403, and the world is left as
    it was: no request reaches the store, no row is appended. *)
Theorem new_order_submission_forbidden role_map req w :
  app.method req = app.POST →
  app.request_role role_map req ∉ creator_roles
  ∨ app.request_role role_map req = None →
  app.new_order role_map req w = (Ok (app.Abort 403), w).
Proof.
  intros _ [Hrole|Hnone]; apply new_order_denied; [done|].
  rewrite Hnone. apply none_not_creator.
Qed.

Lemma new_order_submission_forbidden_witness :
  app.new_order one_picker picker_submission (quiet_world [])
  = (Ok (app.Abort 403), quiet_world []).
Proof.
  apply (new_order_submission_forbidden one_picker picker_submission
           (quiet_world [])); [reflexivity|].
  left. apply (not_creator "picker"); discriminate.
Defined.

(** By contrast, the submission of a manager reaches the store: the one item
    the form yields is appended as one row, with the status of a new order and
    the date of the clock. *)
Lemma new_order_manager_appends :
  ∃ w',
    app.new_order one_manager manager_submission (quiet_world plain_sheet)
    = (Ok (app.Redirect "index" [("uid", Some "234567890")]), w') ∧
    w_sheet w'
    = plain_sheet ++
      [[Some "17"; Some "оформлен"; Some "2024-05-01 10:00"; Some "A-1"; None;
        None; None; Some "2"; None; None; Some ""; Some ""; Some ""; Some "";
        None; None; None; None; None; None]].
Proof. eexists. split; vm_compute; reflexivity. Qed.

(** C10. The role check of the creation endpoint precedes the test of the
    request method: whoever is not manager or admin gets 403 for a GET of the
    form, as for a POST of it, with no effect on the world. *)
Theorem new_order_form_forbidden role_map req w :
  app.method req = app.GET →
  app.request_role role_map req ∉ creator_roles →
  app.new_order role_map req w = (Ok (app.Abort 403), w) ∧
  ∀ f, app.new_order role_map (app.Request (app.args req) app.POST f) w
       = (Ok (app.Abort 403), w).
Proof.
  intros _ Hrole. split; [by apply new_order_denied|].
  intros f. by apply new_order_denied.
Qed.

Lemma new_order_form_forbidden_witness :
  app.new_order app.ROLE_MAP anonymous_visit (quiet_world [])
  = (Ok (app.Abort 403), quiet_world []).
Proof.
  apply (new_order_form_forbidden app.ROLE_MAP anonymous_visit
           (quiet_world [])); [reflexivity|].
  apply none_not_creator.
Defined.

(** A manager or admin who asks for the form gets it. *)
Lemma new_order_form_shown role_map req w :
  app.request_role role_map req ∈ creator_roles →
  app.method req = app.GET →
  app.new_order role_map req w
  = (Ok (app.RenderTemplate "new_order.html"
           (app.NewOrderForm (app.request_uid req) app.channels
              app.logistics app.suppliers)), w).
Proof.
  intros Hrole Hget. unfold app.new_order.
  rewrite bool_decide_eq_false_2; [|by intros ?]. by rewrite Hget.
Qed.

(** ** Updating a status *)

Lemma write_cells_covering (v old : row) :
  length old ≤ length v → write_cells v old = v.
Proof.
  intros Hle. unfold write_cells. rewrite drop_ge by done. apply app_nil_r.
Qed.

Lemma write_row_middle (pre : list row) (r : row) (rest : list row) (v : row) :
  write_row (length pre) v (pre ++ r :: rest) = pre ++ write_cells v r :: rest.
Proof.
  unfold write_row. rewrite decide_True.
  - replace (length pre) with (length pre + 0) at 1 by lia.
    by rewrite alter_app_r.
  - rewrite length_app. simpl. lia.
Qed.

Lemma length_pad_to n (r : row) : length (sheets.pad_to n r) = max (length r) n.
Proof. unfold sheets.pad_to. rewrite length_app, length_replicate. lia. Qed.

Lemma length_set_status_cell ns (r : row) :
  length (sheets.set_status_cell ns r) = max (length r) 2.
Proof. unfold sheets.set_status_cell. by rewrite length_insert, length_pad_to. Qed.

Lemma set_status_cell_status ns (r : row) :
  sheets.set_status_cell ns r !! 1 = Some (Some ns).
Proof.
  unfold sheets.set_status_cell. apply list_lookup_insert_eq.
  rewrite length_pad_to. lia.
Qed.

(** On a row that has its first cell, setting the status touches no cell
    but the second. *)
Lemma set_status_cell_other ns (r : row) j :
  r ≠ [] → j ≠ 1 → sheets.set_status_cell ns r !! j = r !! j.
Proof.
  intros Hr Hj. unfold sheets.set_status_cell, sheets.pad_to.
  rewrite list_lookup_insert_ne by done.
  destruct r as [|c [|c' r]]; [done| |].
  - destruct j as [|[|j]]; done.
  - simpl. by rewrite app_nil_r.
Qed.

Lemma row_matches_spec oid (r : row) :
  sheets.row_matches oid r = true ↔ r !! 0 = Some (Some oid).
Proof.
  destruct r as [|c r]; simpl; [split; discriminate|].
  rewrite bool_decide_eq_true. split; congruence.
Qed.

Lemma row_matches_nonempty oid (r : row) :
  sheets.row_matches oid r = true → r ≠ [].
Proof. by destruct r. Qed.

(** The second loop of [update_status], run against a store that answers:
    the rows before the cursor are already rewritten, the others follow. *)
Lemma send_updates_run oid ns (rows : list row) :
  ∀ (pre : list row) w,
    no_faults w → w_sheet w = pre ++ rows →
    sheets.send_updates
      (sheets.collect_updates oid ns (S (length pre)) rows) w
    = (Ok tt,
       World (pre ++ (update_row oid ns <$> rows)) (w_faults w)
             (w_calls w ++ (update_request <$>
                sheets.collect_updates oid ns (S (length pre)) rows))
             (w_log w) (w_now w) (w_epoch w) (w_ticks w)).
Proof.
  induction rows as [|r rest IH]; intros pre w Hok Hsheet.
  - simpl. unfold ret. destruct w; simpl in *. subst.
    by rewrite !app_nil_r.
  - simpl. unfold update_row at 1.
    destruct (sheets.row_matches oid r) eqn:Hm.
    + simpl. unfold bind at 1. unfold values_update. rewrite Hok.
      set (r' := sheets.set_status_cell ns r).
      set (w1 := with_sheet _ _).
      assert (Hs1 : w_sheet w1 = (pre ++ [r']) ++ rest).
      { subst w1. simpl. unfold write_range. simpl.
        rewrite Nat.sub_0_r, Hsheet, write_row_middle.
        rewrite write_cells_covering.
        - by rewrite <- app_assoc.
        - subst r'. rewrite length_set_status_cell. lia. }
      assert (Hok1 : no_faults w1) by (intros n; apply Hok).
      specialize (IH (pre ++ [r']) w1 Hok1 Hs1).
      rewrite length_app in IH. simpl in IH.
      rewrite Nat.add_1_r in IH. rewrite IH.
      f_equal. subst w1. simpl. f_equal.
      * by rewrite <- app_assoc.
      * by rewrite <- app_assoc.
    + assert (Hs1 : w_sheet w = (pre ++ [r]) ++ rest)
        by (by rewrite <- app_assoc).
      specialize (IH (pre ++ [r]) w Hok Hs1).
      rewrite length_app in IH. simpl in IH.
      rewrite Nat.add_1_r in IH. rewrite IH.
      f_equal. f_equal. by rewrite <- app_assoc.
Qed.

(** [update_status] against a store that answers every request. *)
Lemma update_status_run oid ns w :
  no_faults w →
  sheets.update_status oid ns w
  = (Ok tt,
     World (update_row oid ns <$> w_sheet w) (w_faults w)
           (w_calls w ++ ValuesGet ColumnsAT ::
              (update_request <$>
                 sheets.collect_updates oid ns 1 (w_sheet w)))
           (w_log w) (w_now w) (w_epoch w) (w_ticks w)).
Proof.
  intros Hok. unfold sheets.update_status, try_except_HttpError.
  unfold bind, values_get. rewrite Hok. simpl.
  set (w1 := with_call _ w).
  pose proof (send_updates_run oid ns (w_sheet w) [] w1) as Hrun.
  simpl in Hrun. rewrite Hrun; [|intros n; apply Hok|done].
  f_equal. f_equal. by rewrite <- app_assoc.
Qed.

Lemma collect_updates_elem oid ns (rows : list row) :
  ∀ start idx (r' : row),
    (idx, r') ∈ sheets.collect_updates oid ns start rows ↔
    ∃ r, start ≤ idx ∧ rows !! (idx - start) = Some r ∧
         r !! 0 = Some (Some oid) ∧ r' = sheets.set_status_cell ns r.
Proof.
  induction rows as [|r rest IH]; intros start idx r'; simpl.
  - split; [by intros ?%elem_of_nil|]. by intros (r & _ & ? & _).
  - assert (Hshift : ∀ r0, S start ≤ idx →
              (r :: rest) !! (idx - start) = Some r0 ↔
              rest !! (idx - S start) = Some r0).
    { intros r0 Hle. replace (idx - start) with (S (idx - S start)) by lia.
      done. }
    destruct (sheets.row_matches oid r) eqn:Hm.
    + rewrite elem_of_cons, IH. split.
      * intros [Heq|(r0 & Hle & Hl & Hid & ->)].
        -- injection Heq as -> ->. exists r. rewrite Nat.sub_diag.
           split_and!; [lia|done|by apply row_matches_spec|done].
        -- exists r0. split_and!; [lia|by apply Hshift|done|done].
      * intros (r0 & Hle & Hl & Hid & ->).
        destruct (decide (idx = start)) as [->|Hne].
        -- rewrite Nat.sub_diag in Hl. simpl in Hl. injection Hl as ->.
           by left.
        -- right. exists r0. split_and!; [lia|apply Hshift; [lia|done]|done|done].
    + rewrite IH. split.
      * intros (r0 & Hle & Hl & Hid & ->).
        exists r0. split_and!; [lia|by apply Hshift|done|done].
      * intros (r0 & Hle & Hl & Hid & ->).
        destruct (decide (idx = start)) as [->|Hne].
        -- rewrite Nat.sub_diag in Hl. simpl in Hl. injection Hl as ->.
           apply row_matches_spec in Hid. congruence.
        -- exists r0. split_and!; [lia|apply Hshift; [lia|done]|done|done].
Qed.

Lemma collect_updates_length oid ns (rows : list row) :
  ∀ start,
    length (sheets.collect_updates oid ns start rows)
    = length (filter (λ r : row, r !! 0 = Some (Some oid)) rows).
Proof.
  induction rows as [|r rest IH]; intros start; simpl; [done|].
  rewrite filter_cons. destruct (sheets.row_matches oid r) eqn:Hm.
  - rewrite decide_True by (by apply row_matches_spec). simpl. by rewrite IH.
  - rewrite decide_False; [by rewrite IH|].
    intros Hid%row_matches_spec. congruence.
Qed.

Lemma update_row_spec oid ns (r : row) :
  (r !! 0 = Some (Some oid) → update_row oid ns r !! 1 = Some (Some ns)) ∧
  (r !! 0 ≠ Some (Some oid) → update_row oid ns r = r) ∧
  (∀ j, j ≠ 1 → update_row oid ns r !! j = r !! j) ∧
  update_row oid ns r !! 0 = r !! 0.
Proof.
  unfold update_row. destruct (sheets.row_matches oid r) eqn:Hm.
  - pose proof (row_matches_nonempty _ _ Hm) as Hne.
    split_and!.
    + intros _. apply set_status_cell_status.
    + intros Hid. by apply row_matches_spec in Hm.
    + intros j Hj. by apply set_status_cell_other.
    + by apply set_status_cell_other.
  - split_and!; try done.
    intros Hid%row_matches_spec. congruence.
Qed.

(** C3. Against a store that answers every request, [update_status] returns
    normally and leaves a table of the same length in which every row whose
    first cell is the order identifier has the new status in its second cell,
    every other row is the row it was, and no cell but the second of a row
    has changed; so all rows of that identifier carry the same status
    afterwards. After the one read of the table it issues one update request
    per such row, in table order, each for the single-row range of that row
    and carrying that row alone. *)
Theorem update_status_rewrites_status oid ns w :
  no_faults w →
  ∃ w',
    sheets.update_status oid ns w = (Ok tt, w') ∧
    length (w_sheet w') = length (w_sheet w) ∧
    (∀ i (r : row), w_sheet w !! i = Some r →
       ∃ r' : row, w_sheet w' !! i = Some r' ∧
         (r !! 0 = Some (Some oid) → r' !! 1 = Some (Some ns)) ∧
         (r !! 0 ≠ Some (Some oid) → r' = r) ∧
         (∀ j, j ≠ 1 → r' !! j = r !! j)) ∧
    (∀ r' : row, r' ∈ w_sheet w' →
       r' !! 0 = Some (Some oid) → r' !! 1 = Some (Some ns)) ∧
    ∃ updates : list (nat * row),
      w_calls w' = w_calls w ++ ValuesGet ColumnsAT :: (update_request <$> updates) ∧
      length updates
      = length (filter (λ r : row, r !! 0 = Some (Some oid)) (w_sheet w)) ∧
      ∀ idx (r' : row), (idx, r') ∈ updates ↔
        ∃ r : row, 1 ≤ idx ∧ w_sheet w !! (idx - 1) = Some r ∧
                   r !! 0 = Some (Some oid) ∧
                   r' = sheets.set_status_cell ns r.
Proof.
  intros Hok. eexists. split; [by apply update_status_run|]. simpl.
  split_and!.
  - by rewrite length_fmap.
  - intros i r Hi. exists (update_row oid ns r).
    rewrite list_lookup_fmap, Hi. simpl.
    destruct (update_row_spec oid ns r) as (H1 & H2 & H3 & _). done.
  - intros r' (r & -> & Hr)%list_elem_of_fmap Hid.
    destruct (update_row_spec oid ns r) as (H1 & _ & _ & H0).
    apply H1. by rewrite <- H0.
  - exists (sheets.collect_updates oid ns 1 (w_sheet w)). split_and!.
    + done.
    + apply collect_updates_length.
    + apply collect_updates_elem.
Qed.

Lemma update_status_rewrites_status_witness :
  ∃ w', sheets.update_status "17" "доставка" (quiet_world split_sheet)
        = (Ok tt, w') ∧
        ∀ r' : row, r' ∈ w_sheet w' → r' !! 0 = Some (Some "17") →
                    r' !! 1 = Some (Some "доставка").
Proof.
  destruct (update_status_rewrites_status "17" "доставка"
              (quiet_world split_sheet))
    as (w' & Hrun & _ & _ & Hsame & _); [intros n; reflexivity|].
  by exists w'.
Defined.

(** ** Reading the table *)

Lemma bind_run {A B} (m : M A) (k : A → M B) w a w' :
  m w = (Ok a, w') → bind m k w = k a w'.
Proof. unfold bind. by intros ->. Qed.

Lemma cell_or_empty_run (r : row) i w :
  sheets.cell_or_empty r i w = (Ok (cell r i), w).
Proof.
  unfold sheets.cell_or_empty, sheets.getitem, cell.
  case_bool_decide as Hlen.
  - destruct (lookup_lt_is_Some_2 r i Hlen) as [c ->]. done.
  - rewrite lookup_ge_None_2 by lia. done.
Qed.

Lemma cell_pad_to n (r : row) i : cell (sheets.pad_to n r) i = cell r i.
Proof.
  unfold cell, sheets.pad_to.
  destruct (decide (i < length r)) as [Hlt|Hge].
  - by rewrite lookup_app_l.
  - rewrite lookup_app_r by lia. rewrite (lookup_ge_None_2 r) by lia.
    destruct (replicate _ _ !! _) as [c|] eqn:Hc; [|done].
    apply lookup_replicate_1 in Hc as [-> _]. done.
Qed.

(** One round of the loop of [get_orders] never raises, and does to the
    orders what [step] says. *)
Lemma process_row_run status orders (r : row) w :
  sheets.process_row status orders r w = (Ok (step status orders r), w).
Proof.
  unfold sheets.process_row, step, kept.
  destruct r as [|c0 [|c1 r]]; [done|done|].
  rewrite bool_decide_eq_false_2 by done.
  rewrite bool_decide_eq_false_2 by (simpl; lia).
  rewrite (bool_decide_eq_true_2 (2 ≤ _)) by (simpl; lia).
  cbn [orb andb]. unfold sheets.getitem at 1. cbn [lookup list_lookup].
  erewrite bind_run by reflexivity.
  erewrite bind_run by apply cell_or_empty_run.
  change (cell (c0 :: c1 :: r) 0) with c0.
  destruct (truthy status && bool_decide (cell (c0 :: c1 :: r) 1 ≠ status));
    [done|].
  cbn [negb]. destruct (decide (c0 ∈ sheets.dict_keys orders)) as [Hin|Hin].
  - rewrite (bool_decide_eq_false_2 (c0 ∉ _)) by (by intros ?).
    rewrite (bool_decide_eq_true_2 (c0 ∈ _)) by done.
    erewrite bind_run by reflexivity.
    repeat (erewrite bind_run by apply cell_or_empty_run). done.
  - rewrite (bool_decide_eq_true_2 (c0 ∉ _)) by done.
    rewrite (bool_decide_eq_false_2 (c0 ∈ _)) by done.
    erewrite bind_run;
      [|repeat (erewrite bind_run by apply cell_or_empty_run); reflexivity].
    repeat (erewrite bind_run by apply cell_or_empty_run). done.
Qed.

Lemma aggregate_run status (rows : list row) :
  ∀ orders w,
    sheets.aggregate status orders rows w
    = (Ok (foldl (step status) orders rows), w).
Proof.
  induction rows as [|r rest IH]; intros orders w; simpl; [done|].
  erewrite bind_run by apply process_row_run. apply IH.
Qed.

Lemma step_skip status orders (r : row) :
  length r < 2 → step status orders r = orders.
Proof.
  intros Hlen. unfold step, kept.
  rewrite bool_decide_eq_false_2 by lia. done.
Qed.

Lemma step_pad status orders (r : row) :
  2 ≤ length r → step status orders (sheets.pad_to 20 r) = step status orders r.
Proof.
  intros Hlen. unfold step, kept, row_summary.
  rewrite !cell_pad_to.
  rewrite (bool_decide_eq_true_2 (2 ≤ length (sheets.pad_to 20 r)))
    by (rewrite length_pad_to; lia).
  by rewrite (bool_decide_eq_true_2 (2 ≤ length r)) by done.
Qed.

Lemma foldl_step_readable status (rows : list row) :
  ∀ orders,
    foldl (step status) orders rows
    = foldl (step status) orders
        (sheets.pad_to 20 <$> filter (λ r : row, 2 ≤ length r) rows).
Proof.
  induction rows as [|r rest IH]; intros orders; simpl; [done|].
  rewrite filter_cons. case_decide as Hlen.
  - simpl. rewrite step_pad by done. apply IH.
  - rewrite step_skip by lia. apply IH.
Qed.

(** A row whose first cell is the empty string, and that has a second cell,
    is not passed over: it opens the order of the empty identifier. *)
Lemma empty_identifier_is_kept :
  sheets.process_row None [] [Some ""; Some "оформлен"] (quiet_world [])
  = (Ok [(Some "",
          sheets.Order (Some "") (Some "оформлен") (Some "") (Some "")
            [sheets.ItemSummary (Some "") (Some "") (Some "") (Some "")
               (Some "")])],
     quiet_world []).
Proof. reflexivity. Qed.

(** ** Appending an order *)

Lemma build_rows_run od (items : list dict) :
  ∀ w,
    sheets.build_rows od items w
    = (Ok (rows_at od (w_now w) (w_ticks w) items),
       World (w_sheet w) (w_faults w) (w_calls w) (w_log w) (w_now w)
             (w_epoch w) (w_ticks w + length items)).
Proof.
  induction items as [|item rest IH]; intros w; simpl.
  - unfold ret. destruct w; simpl. by rewrite Nat.add_0_r.
  - unfold bind at 1. unfold datetime_now.
    erewrite bind_run by apply IH. unfold ret. simpl.
    do 2 f_equal. lia.
Qed.

Lemma length_rows_at od now (items : list dict) :
  ∀ t, length (rows_at od now t items) = length items.
Proof. induction items as [|item rest IH]; intros t; simpl; [done|]. by rewrite IH. Qed.

Lemma rows_at_lookup od now (items : list dict) :
  ∀ t i, rows_at od now t items !! i
         = (λ item, sheets.order_row od item (now (t + i))) <$> items !! i.
Proof.
  induction items as [|item rest IH]; intros t i; simpl; [done|].
  destruct i as [|i]; simpl.
  - by rewrite Nat.add_0_r.
  - rewrite IH. by replace (S t + i) with (t + S i) by lia.
Qed.

(** Rows written at the end of the table are appended to it. *)
Lemma write_rows_end (vs : list row) :
  ∀ s : list row, write_rows (length s) vs s = s ++ vs.
Proof.
  induction vs as [|v vs IH]; intros s; simpl; [by rewrite app_nil_r|].
  unfold write_row. rewrite decide_False by lia.
  rewrite Nat.sub_diag. simpl.
  specialize (IH (s ++ [v])). rewrite length_app in IH. simpl in IH.
  rewrite Nat.add_1_r in IH. rewrite IH. by rewrite <- app_assoc.
Qed.

(** [append_order] against a store that answers its two requests: the read
    of the identifier column and the one update that carries all rows. *)
Lemma append_order_run od (items : list dict) w :
  w_faults w (length (w_calls w)) = None →
  w_faults w (S (length (w_calls w))) = None →
  let rows := rows_at od (w_now w) (w_ticks w) items in
  let next_row := length (read_range ColumnA (w_sheet w)) + 1 in
  sheets.append_order od items w
  = (Ok tt,
     World (w_sheet w ++ rows) (w_faults w)
           (w_calls w ++
              [ValuesGet ColumnA;
               ValuesUpdate (RowsAT next_row (next_row + length items - 1)) rows])
           (w_log w) (w_now w) (w_epoch w) (w_ticks w + length items)).
Proof.
  intros Hread Hwrite rows next_row. unfold sheets.append_order.
  erewrite bind_run by apply build_rows_run. fold rows.
  unfold bind, try_except_HttpError, values_get, values_update. simpl.
  rewrite Hread. simpl. rewrite length_app. simpl.
  rewrite Nat.add_1_r, Hwrite. unfold with_sheet, with_call. simpl.
  subst next_row rows. simpl.
  rewrite length_fmap, length_rows_at.
  do 2 f_equal.
  - unfold write_range. simpl.
    replace (length (w_sheet w) + 1 - 1) with (length (w_sheet w)) by lia.
    apply write_rows_end.
  - by rewrite <- app_assoc.
Qed.

Lemma order_row_length od item now : length (sheets.order_row od item now) = 20.
Proof. done. Qed.

(** The cells of a row that hold fields of the order do not depend on the
    item, nor on the clock; the date cell depends on the clock when the order
    has no date of its own. *)
Lemma order_row_order_cells od item item' now now' c :
  c ∈ order_columns →
  sheets.order_row od item now !! c = sheets.order_row od item' now' !! c.
Proof.
  unfold order_columns. rewrite !elem_of_cons, elem_of_nil.
  intros Hc. repeat (destruct Hc as [->|Hc]; [done|]). done.
Qed.

Lemma order_row_date_cell od item now :
  sheets.order_row od item now !! date_column
  = Some (dict_get od "date" (Some now)).
Proof. done. Qed.

Lemma order_row_item_cells od od' item now now' c :
  c ∈ item_columns →
  sheets.order_row od item now !! c = sheets.order_row od' item now' !! c.
Proof.
  unfold item_columns. rewrite !elem_of_cons, elem_of_nil.
  intros Hc. repeat (destruct Hc as [->|Hc]; [done|]). done.
Qed.

(** What holds of the rows of an order of N items, for every N: N rows of 20
    cells go out in one update whose range starts one past the length of the
    identifier column and spans N rows; they end up at the end of the table;
    they agree on the cells of the order, and on the date when the order has
    one or the clock reads the same at both rows; apart from the date they
    differ in item cells only. *)
Lemma append_order_rows od (items : list dict) w :
  w_faults w (length (w_calls w)) = None →
  w_faults w (S (length (w_calls w))) = None →
  ∃ (rows : list row) w',
    sheets.append_order od items w = (Ok tt, w') ∧
    length rows = length items ∧
    Forall (λ r : row, length r = 20) rows ∧
    w_calls w' = w_calls w ++
      [ValuesGet ColumnA;
       ValuesUpdate (RowsAT (length (read_range ColumnA (w_sheet w)) + 1)
                            (length (read_range ColumnA (w_sheet w)) + 1
                             + length items - 1)) rows] ∧
    w_sheet w' = w_sheet w ++ rows ∧
    (∀ i j (ri rj : row), rows !! i = Some ri → rows !! j = Some rj →
       (∀ c, c ∈ order_columns → ri !! c = rj !! c) ∧
       (is_Some (od !! "date") ∨ w_now w (w_ticks w + i) = w_now w (w_ticks w + j) →
        ri !! date_column = rj !! date_column)) ∧
    (∀ i (ri : row) item, rows !! i = Some ri → items !! i = Some item →
       ∀ c, c ∈ item_columns →
            ri !! c = sheets.order_row ∅ item "" !! c).
Proof.
  intros Hread Hwrite. eexists _, _.
  split; [by apply append_order_run|]. simpl. split_and!.
  - apply length_rows_at.
  - apply Forall_forall. intros r (i & Hi)%list_elem_of_lookup.
    rewrite rows_at_lookup in Hi.
    destruct (items !! i); simplify_eq/=. done.
  - done.
  - done.
  - intros i j ri rj Hi Hj. rewrite rows_at_lookup in Hi, Hj.
    destruct (items !! i) as [a|]; [|done].
    destruct (items !! j) as [b|]; [|done]. simplify_eq/=. split.
    + intros c Hc. by apply order_row_order_cells.
    + intros Hdate. unfold date_column, sheets.order_row. simpl.
      unfold dict_get. destruct Hdate as [[d ->] | ->]; done.
  - intros i ri item Hi Hitem c Hc. rewrite rows_at_lookup, Hitem in Hi.
    simplify_eq/=. by apply order_row_item_cells.
Qed.

(** C2, at the input where the code departs from it: an order without a
    date, two items, and the minute changing between the two rows. The two
    rows are written, and their date cells differ, the date being a field of
    the order. *)
Theorem append_order_dates_differ :
  ∃ (r1 r2 : row) w',
    sheets.append_order undated_order two_items (ticking_world []) = (Ok tt, w') ∧
    w_sheet w' = [r1; r2] ∧
    r1 !! date_column = Some (Some "2024-05-01 10:59") ∧
    r2 !! date_column = Some (Some "2024-05-01 11:00") ∧
    r1 !! date_column ≠ r2 !! date_column.
Proof.
  eexists _, _, _. split; [apply append_order_run; reflexivity|].
  split; [reflexivity|]. split_and!; [reflexivity|reflexivity|discriminate].
Qed.

(** ** Store errors *)

Lemma store_run_ret {A} (a : A) w : store_run w (Ok a) w.
Proof. unfold store_run. split_and!; [done|done|done|]. intros n ?. lia. Qed.

Lemma store_run_trans {A B} w (a : A) w1 (r : outcome B) w' :
  store_run w (Ok a) w1 → store_run w1 r w' → store_run w r w'.
Proof.
  intros (Hf1 & Hl1 & Hc1 & Hok1) (Hf2 & Hl2 & Hc2 & Hr).
  unfold store_run. split_and!; [congruence|congruence|lia|].
  assert (Hnone : ∀ n, length (w_calls w) ≤ n < length (w_calls w1) →
                       w_faults w n = None) by done.
  destruct r as [b|[msg| | |]]; try done.
  - intros n Hn. destruct (decide (n < length (w_calls w1))).
    + apply Hnone. lia.
    + rewrite <- Hf1. apply Hr. lia.
  - destruct Hr as (n & Hlen & Hle & Hmsg & Hbefore).
    exists n. split_and!; [done|lia|congruence|].
    intros k Hk. destruct (decide (k < length (w_calls w1))).
    + apply Hnone. lia.
    + rewrite <- Hf1. apply Hbefore. lia.
Qed.

Lemma store_run_bind {A B} (m : M A) (k : A → M B) w :
  (∀ r w', m w = (r, w') → store_run w r w') →
  (∀ a w1 r w', k a w1 = (r, w') → store_run w1 r w') →
  ∀ r w', bind m k w = (r, w') → store_run w r w'.
Proof.
  intros Hm Hk r w'. unfold bind.
  destruct (m w) as [[a|e] w1] eqn:Hmw.
  - intros Hrun. eapply store_run_trans; [by apply Hm|by eapply Hk].
  - intros [= <- <-]. specialize (Hm _ _ eq_refl).
    destruct Hm as (? & ? & ? & He). unfold store_run.
    destruct e; done.
Qed.

Lemma values_get_store_run rng w r w' :
  values_get rng w = (r, w') → store_run w r w'.
Proof.
  unfold values_get, store_run.
  destruct (w_faults w (length (w_calls w))) as [msg|] eqn:Hf;
    intros [= <- <-]; simpl; rewrite length_app; simpl;
    (split_and!; [done|done|lia|]).
  - exists (length (w_calls w)). split_and!; [lia|lia|done|]. intros k ?. lia.
  - intros n Hn. by replace n with (length (w_calls w)) by lia.
Qed.

Lemma values_update_store_run rng vs w r w' :
  values_update rng vs w = (r, w') → store_run w r w'.
Proof.
  unfold values_update, store_run.
  destruct (w_faults w (length (w_calls w))) as [msg|] eqn:Hf;
    intros [= <- <-]; simpl; rewrite length_app; simpl;
    (split_and!; [done|done|lia|]).
  - exists (length (w_calls w)). split_and!; [lia|lia|done|]. intros k ?. lia.
  - intros n Hn. by replace n with (length (w_calls w)) by lia.
Qed.

Lemma send_updates_store_run (updates : list (nat * row)) :
  ∀ w r w', sheets.send_updates updates w = (r, w') → store_run w r w'.
Proof.
  induction updates as [|[idx u] rest IH]; intros w r w'; simpl.
  - intros [= <- <-]. apply store_run_ret.
  - apply store_run_bind.
    + apply values_update_store_run.
    + intros _. apply IH.
Qed.

Lemma store_run_ok_swallowed {A} w (a : A) w' :
  store_run w (Ok a) w' → swallowed w w' ∧ ¬ failed_between w w'.
Proof.
  intros (Hf & Hl & Hc & Hnone).
  assert (Hnot : ¬ failed_between w w').
  { intros (n & Hn & [msg Hmsg]). rewrite Hnone in Hmsg; done. }
  split; [|done]. unfold swallowed, no_retry. split_and!; [|done|done].
  intros n Hn [msg Hmsg]. rewrite Hnone in Hmsg; done.
Qed.

Lemma store_run_err_swallowed {A} w msg w' line :
  store_run (A:=A) w (Raise (HttpError msg)) w' →
  swallowed w (with_line line w') ∧ failed_between w (with_line line w').
Proof.
  intros (Hf & Hl & Hc & n & Hlen & Hle & Hmsg & Hbefore).
  assert (Hfailed : failed_between w (with_line line w')).
  { exists n. simpl. split; [lia|by eexists]. }
  split; [|done]. unfold swallowed, no_retry. simpl. split_and!.
  - intros k Hk [msg' Hmsg']. destruct (decide (k < n)).
    + rewrite Hbefore in Hmsg'; [done|lia].
    + lia.
  - intros _. exists line. by rewrite Hl.
  - done.
Qed.

(** A [try] whose body talks to the store and whose handler prints a line
    and gives a fixed value: it never raises, at most one request fails, and
    the failure leaves that line and that value. *)
Lemma try_except_swallowed {A} (body : M A) (handler : string → M A)
    (d : A) (line : string → string) w :
  (∀ msg w0, handler msg w0 = (Ok d, with_line (line msg) w0)) →
  (∀ r w', body w = (r, w') → store_run w r w') →
  ∃ a w',
    try_except_HttpError body handler w = (Ok a, w') ∧
    swallowed w w' ∧ w_faults w' = w_faults w ∧
    length (w_calls w) ≤ length (w_calls w') ∧
    (failed_between w w' → a = d) ∧
    (¬ failed_between w w' → body w = (Ok a, w')).
Proof.
  intros Hhandler Hbody. unfold try_except_HttpError.
  destruct (body w) as [[a|e] w'] eqn:Hrun; specialize (Hbody _ _ eq_refl).
  - destruct (store_run_ok_swallowed _ _ _ Hbody) as [Hs Hnot].
    destruct Hbody as (Hf & _ & Hc & _).
    exists a, w'. split_and!; done.
  - destruct e as [msg| | |]; try by destruct Hbody as (_ & _ & _ & []).
    destruct (store_run_err_swallowed _ _ _ (line msg) Hbody) as [Hs Hfailed].
    destruct Hbody as (Hf & _ & Hc & _).
    exists d, (with_line (line msg) w'). rewrite Hhandler.
    split_and!; done.
Qed.

Lemma print_then_ret {A} (d : A) line w :
  bind (print line) (λ _, ret d) w = (Ok d, with_line line w).
Proof. done. Qed.

Lemma swallowed_same_start w0 w w' :
  w_calls w0 = w_calls w → w_faults w0 = w_faults w → w_log w0 = w_log w →
  swallowed w0 w' → swallowed w w'.
Proof.
  unfold swallowed, no_retry, failed_between.
  intros -> -> ->. done.
Qed.

Lemma append_order_swallowed od (items : list dict) w :
  ∃ w', sheets.append_order od items w = (Ok tt, w') ∧ swallowed w w'.
Proof.
  unfold sheets.append_order.
  erewrite bind_run by apply build_rows_run.
  set (w0 := World _ _ _ _ _ _ _).
  set (rows := rows_at _ _ _ _).
  destruct (try_except_swallowed
              (bind (values_get ColumnA)
                    (λ existing, ret (Some (length existing + 1))))
              (λ err, bind (print ("Ошибка при чтении таблицы: " +:+ err))
                           (λ _, ret None))
              None (λ err, "Ошибка при чтении таблицы: " +:+ err) w0)
    as (next & w1 & Hrun & Hs1 & Hf1 & Hc1 & Hfail1 & Hclean1).
  { intros msg w'. apply print_then_ret. }
  { apply store_run_bind; [apply values_get_store_run|].
    intros a w1 r w' [= <- <-]. apply store_run_ret. }
  erewrite bind_run by apply Hrun.
  destruct next as [next_row|].
  - destruct (try_except_swallowed
                (values_update
                   (RowsAT next_row (next_row + length rows - 1)) rows)
                (λ err, print ("Ошибка при записи таблицы: " +:+ err))
                tt (λ err, "Ошибка при записи таблицы: " +:+ err) w1)
      as ([] & w2 & Hrun2 & Hs2 & Hf2 & Hc2 & _ & _).
    { done. }
    { apply values_update_store_run. }
    exists w2. split; [done|].
    apply (swallowed_same_start w0); [done..|].
    assert (Hnot1 : ¬ failed_between w0 w1).
    { intros Hfailed. by specialize (Hfail1 Hfailed). }
    destruct Hs1 as (Hr1 & _ & Hlog1). specialize (Hlog1 Hnot1).
    destruct Hs2 as (Hr2 & Hlogf2 & Hlog2).
    assert (Hnone1 : ∀ n, length (w_calls w0) ≤ n < length (w_calls w1) →
                          w_faults w0 n = None).
    { intros n Hn. destruct (w_faults w0 n) eqn:Hfn; [|done].
      exfalso. apply Hnot1. exists n. split; [done|by eexists]. }
    unfold swallowed, no_retry, failed_between in *.
    rewrite Hf1, Hlog1 in *. split_and!.
    + intros n Hn Hsome. apply Hr2; [|done].
      destruct (decide (n < length (w_calls w1))); [|lia].
      rewrite Hnone1 in Hsome by lia. by destruct Hsome.
    + intros (n & Hn & Hsome). apply Hlogf2. exists n. split; [|done].
      destruct (decide (n < length (w_calls w1))); [|lia].
      rewrite Hnone1 in Hsome by lia. by destruct Hsome.
    + intros Hnot. apply Hlog2. intros (n & Hn & Hsome).
      apply Hnot. exists n. split; [lia|done].
  - exists w1. split; [done|]. by apply (swallowed_same_start w0).
Qed.

Lemma update_status_swallowed oid ns w :
  ∃ w', sheets.update_status oid ns w = (Ok tt, w') ∧ swallowed w w'.
Proof.
  unfold sheets.update_status.
  destruct (try_except_swallowed
              (bind (values_get ColumnsAT)
                    (λ rows, sheets.send_updates
                               (sheets.collect_updates oid ns 1 rows)))
              (λ err, print ("Ошибка при обновлении статуса: " +:+ err))
              tt (λ err, "Ошибка при обновлении статуса: " +:+ err) w)
    as ([] & w' & Hrun & Hs & _).
  { done. }
  { apply store_run_bind; [apply values_get_store_run|].
    intros rows w1. apply send_updates_store_run. }
  by exists w'.
Qed.

Lemma get_orders_swallowed status w :
  ∃ res w',
    sheets.get_orders status w = (Ok res, w') ∧ swallowed w w' ∧
    (failed_between w w' → res = []).
Proof.
  unfold sheets.get_orders.
  destruct (try_except_swallowed
              (bind (values_get ColumnsAT) (λ rows, ret (Some rows)))
              (λ err, bind (print ("Ошибка при чтении заказов: " +:+ err))
                           (λ _, ret None))
              None (λ err, "Ошибка при чтении заказов: " +:+ err) w)
    as (read & w' & Hrun & Hs & _ & _ & Hfail & _).
  { intros msg w'. apply print_then_ret. }
  { apply store_run_bind; [apply values_get_store_run|].
    intros a w1 r w' [= <- <-]. apply store_run_ret. }
  erewrite bind_run by apply Hrun.
  destruct read as [rows|].
  - erewrite bind_run by apply aggregate_run.
    eexists _, w'. split_and!; [done|done|].
    intros Hfailed. by specialize (Hfail Hfailed).
  - exists [], w'. done.
Qed.

(** A handler for [HttpError] lets an exception of any other class
    through, with what the body had done. *)
Lemma try_except_passes_others {A} (body : M A) (handler : string → M A)
    e w w' :
  body w = (Raise e, w') → (∀ msg, e ≠ HttpError msg) →
  try_except_HttpError body handler w = (Raise e, w').
Proof.
  intros Hrun Hclass. unfold try_except_HttpError. rewrite Hrun.
  destruct e as [msg| | |]; [by destruct (Hclass msg)|done..].
Qed.

Lemma with_service_returned {A} (body : M A) a w :
  is_Some (sheets._get_service a).1 →
  with_service body a w
  = (Returned (body w).1, (body w).2, (sheets._get_service a).2).
Proof.
  intros [c Hc]. unfold with_service.
  destruct (sheets._get_service a) as [[c'|] a']; [|done].
  by destruct (body w).
Qed.

Lemma with_service_raised {A} (body : M A) a w :
  (sheets._get_service a).1 = None →
  with_service body a w = (ServiceRaised, w, (sheets._get_service a).2).
Proof.
  intros Hc. unfold with_service.
  by destruct (sheets._get_service a) as [[c'|] a'].
Qed.




(** ** The aggregation of [get_orders] *)

Lemma find_snoc {A} (f : A → bool) (l : list A) x :
  List.find f (l ++ [x])
  = match List.find f l with
    | Some y => Some y
    | None => if f x then Some x else None
    end.
Proof.
  induction l as [|y l IH]; simpl; [done|].
  destruct (f y); [done|]. apply IH.
Qed.

Lemma filter_snoc {A} (f : A → bool) (l : list A) x :
  List.filter f (l ++ [x]) = List.filter f l ++ (if f x then [x] else []).
Proof. rewrite List.filter_app. simpl. by destruct (f x). Qed.

Lemma find_none_iff {A} (f : A → bool) (l : list A) :
  List.find f l = None ↔ ∀ x, x ∈ l → f x = false.
Proof.
  induction l as [|y l IH]; simpl.
  - split; [|done]. by intros _ x ?%elem_of_nil.
  - destruct (f y) eqn:Hy.
    + split; [done|]. intros Hall. rewrite Hall in Hy; [done|]. by left.
    + rewrite IH. split.
      * intros Hall x [->|Hx]%elem_of_cons; [done|by apply Hall].
      * intros Hall x Hx. apply Hall. by right.
Qed.

Lemma filter_nil_iff {A} (f : A → bool) (l : list A) :
  (∀ x, x ∈ l → f x = false) → List.filter f l = [].
Proof.
  induction l as [|y l IH]; simpl; [done|]. intros Hall.
  rewrite Hall by (by left). apply IH. intros x Hx. apply Hall. by right.
Qed.

Lemma dict_keys_append_item oid it (orders : sheets.orders_dict) :
  sheets.dict_keys (sheets.append_item oid it orders) = sheets.dict_keys orders.
Proof.
  unfold sheets.dict_keys, sheets.append_item.
  rewrite <- list_fmap_compose. apply list_fmap_ext.
  intros i [k o] _. simpl. by case_bool_decide.
Qed.

Lemma append_item_fresh oid it (orders : sheets.orders_dict) :
  oid ∉ sheets.dict_keys orders → sheets.append_item oid it orders = orders.
Proof.
  intros Hfresh. unfold sheets.append_item.
  rewrite <- (list_fmap_id orders) at 2. apply list_fmap_ext.
  intros i [k o] Hi. simpl. case_bool_decide as Hk; [|done].
  exfalso. apply Hfresh. subst k. unfold sheets.dict_keys.
  apply list_elem_of_fmap. exists (oid, o). split; [done|].
  by eapply list_elem_of_lookup_2.
Qed.

Lemma described_snoc_other status (rows : list row) (r : row) kv :
  carries status kv.1 r = false →
  described status rows kv → described status (rows ++ [r]) kv.
Proof.
  intros Hr (Hid & r0 & Hfirst & Hst & Hdate & Hname & Hitems).
  split; [done|]. exists r0. unfold first_kept, items_of in *.
  rewrite find_snoc, Hfirst, filter_snoc, Hr, app_nil_r. done.
Qed.

Lemma described_snoc_more status (rows : list row) (r : row) k o :
  carries status k r = true →
  described status rows (k, o) →
  described status (rows ++ [r])
    (k, sheets.Order (sheets.o_id o) (sheets.o_status o) (sheets.o_date o)
                     (sheets.o_customer_name o)
                     (sheets.o_items o ++ [row_summary r])).
Proof.
  intros Hr (Hid & r0 & Hfirst & Hst & Hdate & Hname & Hitems).
  simpl in *. split; [done|]. exists r0. unfold first_kept, items_of in *.
  simpl. rewrite find_snoc, Hfirst, filter_snoc, Hr, fmap_app, Hitems. done.
Qed.

Lemma described_snoc_new status (rows : list row) (r : row) :
  kept status r = true →
  (∀ x : row, x ∈ rows → carries status (cell r 0) x = false) →
  described status (rows ++ [r])
    (cell r 0,
     sheets.Order (cell r 0) (cell r 1) (cell r 2) (cell r 14) [row_summary r]).
Proof.
  intros Hkept Hnone. split; [done|]. exists r. simpl.
  assert (Hr : carries status (cell r 0) r = true).
  { unfold carries. rewrite Hkept. by rewrite bool_decide_eq_true_2. }
  unfold first_kept, items_of.
  rewrite find_snoc, filter_snoc, Hr.
  rewrite (proj2 (find_none_iff _ _) Hnone).
  rewrite (filter_nil_iff _ _ Hnone). done.
Qed.

Lemma aggregated_nil status : aggregated status [] [].
Proof.
  split_and!; [constructor| |constructor].
  intros k. split; [by intros ?%elem_of_nil|].
  by intros (r & ?%elem_of_nil & _).
Qed.

Lemma carries_id status k (r : row) :
  carries status k r = true ↔ kept status r = true ∧ cell r 0 = k.
Proof.
  unfold carries. rewrite andb_true_iff, bool_decide_eq_true. done.
Qed.

Lemma aggregated_step status (rows : list row) orders (r : row) :
  aggregated status rows orders →
  aggregated status (rows ++ [r]) (step status orders r).
Proof.
  intros (Hnodup & Hkeys & Hdesc). unfold step.
  destruct (kept status r) eqn:Hkept.
  - case_bool_decide as Hin.
    + (* the identifier has its entry already *)
      split_and!.
      * by rewrite dict_keys_append_item.
      * intros k. rewrite dict_keys_append_item, Hkeys. split.
        -- intros (x & Hx & Hc). exists x. split; [|done].
           apply elem_of_app. by left.
        -- intros (x & [Hx|Hx%list_elem_of_singleton]%elem_of_app & Hc).
           ++ by exists x.
           ++ subst x. apply carries_id in Hc as [_ <-]. by apply Hkeys.
      * unfold sheets.append_item. apply Forall_fmap.
        eapply Forall_impl; [exact Hdesc|]. intros [k o] Hkv. simpl.
        case_bool_decide as Hk.
        -- subst k. apply described_snoc_more; [|done].
           apply carries_id. done.
        -- apply described_snoc_other; [|done]. simpl.
           destruct (carries status k r) eqn:Hc; [|done].
           apply carries_id in Hc as [_ Hc]. congruence.
    + (* a new identifier *)
      assert (Hnone : ∀ x : row, x ∈ rows → carries status (cell r 0) x = false).
      { intros x Hx. destruct (carries status (cell r 0) x) eqn:Hc; [|done].
        exfalso. apply Hin, Hkeys. by exists x. }
      assert (Hstep :
        sheets.append_item (cell r 0) (row_summary r)
          (orders ++ [(cell r 0,
                       sheets.Order (cell r 0) (cell r 1) (cell r 2)
                                    (cell r 14) [])])
        = orders ++ [(cell r 0,
                      sheets.Order (cell r 0) (cell r 1) (cell r 2)
                                   (cell r 14) [row_summary r])]).
      { pose proof (append_item_fresh (cell r 0) (row_summary r) orders Hin)
          as Hsame.
        unfold sheets.append_item in *. rewrite fmap_app, Hsame. simpl.
        by rewrite bool_decide_eq_true_2. }
      rewrite Hstep. split_and!.
      * unfold sheets.dict_keys in *. rewrite fmap_app. simpl.
        apply NoDup_app. split_and!; [done| |apply NoDup_singleton].
        intros k Hk ->%list_elem_of_singleton. done.
      * intros k. unfold sheets.dict_keys in *. rewrite fmap_app. simpl.
        rewrite elem_of_app, list_elem_of_singleton, Hkeys. split.
        -- intros [(x & Hx & Hc)| ->].
           ++ exists x. split; [|done]. apply elem_of_app. by left.
           ++ exists r. split; [apply elem_of_app; right; by left|].
              by apply carries_id.
        -- intros (x & [Hx|Hx%list_elem_of_singleton]%elem_of_app & Hc).
           ++ left. by exists x.
           ++ subst x. right. by apply carries_id in Hc as [_ <-].
      * apply Forall_app. split.
        -- apply Forall_forall. intros [k o] Hkv.
           apply described_snoc_other.
           ++ simpl. destruct (carries status k r) eqn:Hc; [|done].
              apply carries_id in Hc as [_ <-]. exfalso. apply Hin.
              unfold sheets.dict_keys. apply list_elem_of_fmap.
              by exists (cell r 0, o).
           ++ by eapply Forall_forall in Hdesc.
        -- apply Forall_singleton. by apply described_snoc_new.
  - (* the row is passed over *)
    assert (Hnot : ∀ k, carries status k r = false).
    { intros k. unfold carries. by rewrite Hkept. }
    split_and!; [done| |].
    + intros k. rewrite Hkeys. split.
      * intros (x & Hx & Hc). exists x. split; [|done].
        apply elem_of_app. by left.
      * intros (x & [Hx|Hx%list_elem_of_singleton]%elem_of_app & Hc).
        -- by exists x.
        -- subst x. by rewrite Hnot in Hc.
    + eapply Forall_impl; [exact Hdesc|]. intros kv Hkv.
      by apply described_snoc_other.
Qed.

Lemma aggregated_foldl status (rows : list row) :
  aggregated status rows (foldl (step status) [] rows).
Proof.
  induction rows as [|r rows IH] using rev_ind.
  - apply aggregated_nil.
  - rewrite foldl_app. simpl. by apply aggregated_step.
Qed.

Lemma get_orders_run status w :
  w_faults w (length (w_calls w)) = None →
  sheets.get_orders status w
  = (Ok (snd <$> foldl (step status) [] (w_sheet w)),
     with_call (ValuesGet ColumnsAT) w).
Proof.
  intros Hread. unfold sheets.get_orders, try_except_HttpError.
  unfold bind at 1. unfold bind at 1. unfold values_get. rewrite Hread.
  simpl. by erewrite bind_run by apply aggregate_run.
Qed.

Lemma get_orders_failed status w msg :
  w_faults w (length (w_calls w)) = Some msg →
  sheets.get_orders status w
  = (Ok [], with_line ("Ошибка при чтении заказов: " +:+ msg)
                      (with_call (ValuesGet ColumnsAT) w)).
Proof.
  intros Hread. unfold sheets.get_orders, try_except_HttpError.
  unfold bind at 1. unfold bind at 1. unfold values_get. by rewrite Hread.
Qed.

Lemma cell_lookup (r : row) i : i < length r → r !! i = Some (cell r i).
Proof.
  intros Hi. unfold cell. by destruct (lookup_lt_is_Some_2 r i Hi) as [c ->].
Qed.

Lemma kept_spec status (r : row) :
  kept status r = true ↔
  2 ≤ length r ∧ (truthy status = true → r !! 1 = Some status).
Proof.
  unfold kept. rewrite andb_true_iff, bool_decide_eq_true, negb_true_iff.
  split.
  - intros [Hlen Hst]. split; [done|]. intros Htruthy.
    rewrite Htruthy in Hst. simpl in Hst. apply bool_decide_eq_false in Hst.
    rewrite cell_lookup by lia. f_equal.
    destruct (decide (cell r 1 = status)); [done|]. by destruct Hst.
  - intros [Hlen Hst]. split; [done|].
    destruct (truthy status); [|done]. simpl. apply bool_decide_eq_false.
    intros Hne. specialize (Hst eq_refl).
    rewrite cell_lookup in Hst by lia. congruence.
Qed.

Lemma carries_spec status k (r : row) :
  carries status k r = true ↔
  2 ≤ length r ∧ r !! 0 = Some k ∧ (truthy status = true → r !! 1 = Some status).
Proof.
  rewrite carries_id, kept_spec. split.
  - intros [[Hlen Hst] Hid]. rewrite cell_lookup by lia. by rewrite Hid.
  - intros (Hlen & Hid & Hst). rewrite cell_lookup in Hid by lia.
    split; [done|congruence].
Qed.

Lemma find_ext {A} (f g : A → bool) (l : list A) :
  (∀ x, f x = g x) → List.find f l = List.find g l.
Proof.
  intros Hfg. induction l as [|y l IH]; simpl; [done|].
  by rewrite Hfg, IH.
Qed.

Lemma find_some_elem {A} (f : A → bool) (l : list A) x :
  List.find f l = Some x → x ∈ l ∧ f x = true.
Proof. intros [Hin Hf]%List.find_some. by rewrite list_elem_of_In. Qed.

Lemma find_is_some {A} (f : A → bool) (l : list A) x :
  x ∈ l → f x = true → ∃ y, List.find f l = Some y.
Proof.
  intros Hx Hf. destruct (List.find f l) as [y|] eqn:Hfind; [by exists y|].
  rewrite find_none_iff in Hfind. rewrite Hfind in Hf; done.
Qed.

Lemma first_seen_alt (rows : list row) oid :
  first_seen rows oid
  = List.find (λ r : row, bool_decide (2 ≤ length r ∧ r !! 0 = Some oid)) rows.
Proof.
  apply find_ext. intros r.
  destruct (carries None oid r) eqn:Hc.
  - apply carries_spec in Hc as (Hlen & Hid & _).
    by rewrite bool_decide_eq_true_2.
  - symmetry. apply bool_decide_eq_false. intros [Hlen Hid].
    apply not_true_iff_false in Hc. apply Hc, carries_spec. done.
Qed.

(** The empty string is no filter. *)
Lemma step_falsy status orders (r : row) :
  truthy status = false → step status orders r = step None orders r.
Proof. intros Hfalsy. unfold step, kept. by rewrite Hfalsy. Qed.

Lemma get_orders_falsy status w :
  truthy status = false → sheets.get_orders status w = sheets.get_orders None w.
Proof.
  intros Hfalsy.
  destruct (w_faults w (length (w_calls w))) as [msg|] eqn:Hread.
  - by rewrite !(get_orders_failed _ _ msg).
  - rewrite !get_orders_run by done. do 3 f_equal.
    generalize (@nil (value * sheets.order)).
    induction (w_sheet w) as [|r rows IH]; intros orders; simpl; [done|].
    by rewrite step_falsy, IH.
Qed.

(** What the aggregation returns, entry by entry. *)
Lemma aggregated_values status (rows : list row) orders :
  aggregated status rows orders →
  sheets.o_id <$> (snd <$> orders) = sheets.dict_keys orders ∧
  ∀ o, o ∈ snd <$> orders → described status rows (sheets.o_id o, o).
Proof.
  intros (_ & _ & Hdesc). split.
  - unfold sheets.dict_keys. rewrite <- list_fmap_compose.
    apply Forall_fmap_ext_1. eapply Forall_impl; [exact Hdesc|].
    intros [k o] [Hid _]. done.
  - intros o ([k o'] & -> & Hkv)%list_elem_of_fmap. simpl.
    eapply Forall_forall in Hdesc; [|done].
    destruct Hdesc as [Hid Hrest]. simpl in Hid. rewrite Hid.
    split; [done|]. exact Hrest.
Qed.

(** C4, as the code has it. When the read of the table succeeds,
    [get_orders] returns one record per identifier, for the identifiers of
    the rows that have two cells at least
    and, under a non-empty filter, the status of the filter in their second
    cell. The status, date and customer it reports are those of the first
    such row, the items those of all such rows; under a non-empty filter the
    reported status is the filter. No filter and the empty filter select the
    same rows. When the rows of each identifier agree on their status, the
    identifiers returned under a non-empty filter are those whose first-seen
    row has the status of the filter. *)
Theorem get_orders_by_status status w :
  w_faults w (length (w_calls w)) = None →
  ∃ res,
    sheets.get_orders status w
    = (Ok res, with_call (ValuesGet ColumnsAT) w) ∧
    NoDup (sheets.o_id <$> res) ∧
    (∀ k, k ∈ sheets.o_id <$> res ↔
          ∃ r : row, r ∈ w_sheet w ∧ 2 ≤ length r ∧ r !! 0 = Some k ∧
                     (truthy status = true → r !! 1 = Some status)) ∧
    (∀ o, o ∈ res →
          ∃ r : row, first_kept status (w_sheet w) (sheets.o_id o) = Some r ∧
                     r !! 1 = Some (sheets.o_status o) ∧
                     sheets.o_date o = cell r 2 ∧
                     sheets.o_customer_name o = cell r 14 ∧
                     sheets.o_items o
                     = items_of status (w_sheet w) (sheets.o_id o)) ∧
    (truthy status = true → ∀ o, o ∈ res → sheets.o_status o = status) ∧
    (truthy status = false →
     sheets.get_orders status w = sheets.get_orders None w ∧
     ∀ o, o ∈ res →
          ∃ r : row, first_seen (w_sheet w) (sheets.o_id o) = Some r ∧
                     r !! 1 = Some (sheets.o_status o)) ∧
    (truthy status = true → consistent (w_sheet w) →
     ∀ k, k ∈ sheets.o_id <$> res ↔
          ∃ r : row, first_seen (w_sheet w) k = Some r ∧ r !! 1 = Some status).
Proof.
  intros Hread. eexists. split; [by apply get_orders_run|].
  pose proof (aggregated_foldl status (w_sheet w)) as Hagg.
  set (orders := foldl (step status) [] (w_sheet w)) in *.
  destruct (aggregated_values _ _ _ Hagg) as [Hids Hvalues].
  destruct Hagg as (Hnodup & Hkeys & _).
  assert (Hmem : ∀ k, k ∈ sheets.o_id <$> (snd <$> orders) ↔
            ∃ r : row, r ∈ w_sheet w ∧ 2 ≤ length r ∧ r !! 0 = Some k ∧
                       (truthy status = true → r !! 1 = Some status)).
  { intros k. rewrite Hids, Hkeys. split.
    - intros (r & Hr & Hc%carries_spec). by exists r.
    - intros (r & Hr & Hc). exists r. split; [done|]. by apply carries_spec. }
  assert (Hfirst : ∀ o, o ∈ snd <$> orders →
            ∃ r : row, first_kept status (w_sheet w) (sheets.o_id o) = Some r ∧
                       carries status (sheets.o_id o) r = true ∧
                       r !! 1 = Some (sheets.o_status o) ∧
                       sheets.o_date o = cell r 2 ∧
                       sheets.o_customer_name o = cell r 14 ∧
                       sheets.o_items o
                       = items_of status (w_sheet w) (sheets.o_id o)).
  { intros o Ho. destruct (Hvalues o Ho) as (_ & r & Hf & Hst & Hd & Hn & Hi).
    simpl in *. exists r.
    destruct (find_some_elem _ _ _ Hf) as [_ Hc].
    split_and!; try done.
    apply carries_spec in Hc as (Hlen & _ & _).
    rewrite cell_lookup by lia. by rewrite Hst. }
  split_and!.
  - by rewrite Hids.
  - exact Hmem.
  - intros o Ho. destruct (Hfirst o Ho) as (r & ? & ? & ? & ? & ? & ?).
    by exists r.
  - intros Htruthy o Ho.
    destruct (Hfirst o Ho) as (r & _ & Hc%carries_spec & Hst & _).
    destruct Hc as (_ & _ & Hf). specialize (Hf Htruthy). congruence.
  - intros Hfalsy. split; [by apply get_orders_falsy|]. intros o Ho.
    destruct (Hfirst o Ho) as (r & Hf & _ & Hst & _).
    exists r. split; [|done]. unfold first_seen, first_kept in *.
    rewrite <- Hf. apply find_ext. intros x.
    unfold carries, kept. by rewrite Hfalsy.
  - intros Htruthy Hcons k. rewrite Hmem. split.
    + intros (r & Hr & Hlen & Hid & Hst). specialize (Hst Htruthy).
      destruct (find_is_some (carries None k) (w_sheet w) r Hr) as [r0 Hr0].
      { by apply carries_spec. }
      exists r0. split; [done|].
      destruct (find_some_elem _ _ _ Hr0) as [Hin0 Hc0%carries_spec].
      destruct Hc0 as (Hlen0 & Hid0 & _).
      rewrite <- Hst. apply Hcons; [done..|congruence].
    + intros (r0 & Hr0 & Hst).
      destruct (find_some_elem _ _ _ Hr0) as [Hin0 Hc0%carries_spec].
      destruct Hc0 as (Hlen0 & Hid0 & _). by exists r0.
Qed.

(** C4 as it is worded fails on the code: an order whose two rows
    disagree is returned under the status of its second row; an identifier
    whose only row has one cell is not returned at all; the empty filter
    returns an order whose status is not empty. *)
Lemma get_orders_not_by_first_row :
  (∃ res w',
     sheets.get_orders (Some "сборка") (quiet_world split_sheet) = (Ok res, w') ∧
     ¬ filtered_by_first_row "сборка" split_sheet res) ∧
  (∃ res w',
     sheets.get_orders None (quiet_world stub_sheet) = (Ok res, w') ∧
     ¬ one_per_identifier stub_sheet res) ∧
  (∃ res w',
     sheets.get_orders (Some "") (quiet_world plain_sheet) = (Ok res, w') ∧
     ¬ filtered_by_first_row "" plain_sheet res).
Proof.
  split_and!.
  - eexists _, _. split; [by apply get_orders_run|]. intros Hclaim.
    destruct (proj1 (Hclaim (Some "17"))) as (r & Hr & Hst).
    + vm_compute. apply list_elem_of_here.
    + vm_compute in Hr. injection Hr as <-. discriminate.
  - eexists _, _. split; [by apply get_orders_run|]. intros Hclaim.
    assert (Hin : Some "18" ∈ sheets.o_id <$> ([] : list sheets.order)).
    { apply (proj2 (Hclaim (Some "18"))). exists [Some "18"].
      split; [apply list_elem_of_here|reflexivity]. }
    by apply elem_of_nil in Hin.
  - eexists _, _. split; [by apply get_orders_run|]. intros Hclaim.
    destruct (proj1 (Hclaim (Some "19"))) as (r & Hr & Hst).
    + vm_compute. apply list_elem_of_here.
    + vm_compute in Hr. injection Hr as <-. discriminate.
Qed.

Lemma get_orders_by_status_witness :
  ∃ res, sheets.get_orders (Some "оформлен") (quiet_world plain_sheet)
         = (Ok res, with_call (ValuesGet ColumnsAT) (quiet_world plain_sheet)) ∧
         ∀ o, o ∈ res → sheets.o_status o = Some "оформлен".
Proof.
  destruct (get_orders_by_status (Some "оформлен") (quiet_world plain_sheet))
    as (res & Hrun & _ & _ & _ & Hstatus & _); [reflexivity|].
  exists res. split; [done|]. by apply Hstatus.
Defined.

(** The claim C9 as it is worded fails on the code: a row whose identifier
    is blank, with a status beside it, is not passed over. The round that
    reads it does not leave the orders as they were, and [get_orders]
    returns an order of the empty identifier with one item. *)
Lemma blank_identifier_row_is_read :
  sheets.process_row None [] [Some ""; Some "оформлен"] (quiet_world blank_sheet)
  ≠ (Ok [], quiet_world blank_sheet) ∧
  sheets.get_orders None (quiet_world blank_sheet)
  = (Ok [sheets.Order (Some "") (Some "оформлен") (Some "") (Some "")
           [sheets.ItemSummary (Some "") (Some "") (Some "") (Some "")
              (Some "")]],
     with_call (ValuesGet ColumnsAT) (quiet_world blank_sheet)).
Proof. split; [discriminate|reflexivity]. Qed.

(** C9, as the code has it. In the aggregation of [get_orders] a row of
    fewer than two cells is passed over: the orders are after it what they
    were before, and the world too; so is a row of another status than the
    one of a filter. Every other row is read, a blank first cell included,
    with the empty string for each cell it does not have. When no order of
    its identifier is there, the round appends the order of that identifier
    with the status, the date (cell 2) and the customer (cell 14) of the
    row and the one item of the row (cells 3, 7, 8, 9 and 5); when there is
    one, the round appends the item of the row to that order and touches
    no other. No round raises (no index is out of range), a round reads a
    row as it reads the row padded to the 20 columns, and the whole loop
    yields what it yields on the table of the padded rows that have two
    cells at least. *)
Theorem read_skips_and_pads status orders (rows : list row) (r : row) w :
  (length r < 2 → sheets.process_row status orders r w = (Ok orders, w)) ∧
  (2 ≤ length r → truthy status = true → r !! 1 ≠ Some status →
   sheets.process_row status orders r w = (Ok orders, w)) ∧
  (2 ≤ length r → (truthy status = true → r !! 1 = Some status) →
   cell r 0 ∉ sheets.dict_keys orders →
   sheets.process_row status orders r w
   = (Ok (orders ++
            [(cell r 0,
              sheets.Order (cell r 0) (cell r 1) (cell r 2) (cell r 14)
                [sheets.ItemSummary (cell r 3) (cell r 7) (cell r 8)
                   (cell r 9) (cell r 5)])]),
      w)) ∧
  (2 ≤ length r → (truthy status = true → r !! 1 = Some status) →
   cell r 0 ∈ sheets.dict_keys orders →
   ∃ orders',
     sheets.process_row status orders r w = (Ok orders', w) ∧
     length orders' = length orders ∧
     ∀ i k o, orders !! i = Some (k, o) →
       orders' !! i
       = Some (k, if decide (k = cell r 0)
                  then sheets.Order (sheets.o_id o) (sheets.o_status o)
                         (sheets.o_date o) (sheets.o_customer_name o)
                         (sheets.o_items o ++
                            [sheets.ItemSummary (cell r 3) (cell r 7)
                               (cell r 8) (cell r 9) (cell r 5)])
                  else o)) ∧
  (∃ orders', sheets.process_row status orders r w = (Ok orders', w)) ∧
  (2 ≤ length r →
   sheets.process_row status orders r w
   = sheets.process_row status orders (sheets.pad_to 20 r) w) ∧
  (∃ orders', sheets.aggregate status orders rows w = (Ok orders', w) ∧
     sheets.aggregate status orders
       (sheets.pad_to 20 <$> filter (λ r : row, 2 ≤ length r) rows) w
     = (Ok orders', w)).
Proof.
  split_and!.
  - intros Hshort. rewrite process_row_run. by rewrite step_skip.
  - intros Hlen Hfilter Hst. rewrite process_row_run. unfold step.
    destruct (kept status r) eqn:Hkept; [|done].
    apply kept_spec in Hkept as [_ Hsame]. by destruct (Hst (Hsame Hfilter)).
  - intros Hlen Hst Hfresh. rewrite process_row_run. unfold step.
    rewrite (proj2 (kept_spec status r)) by done.
    rewrite bool_decide_eq_false_2 by done.
    pose proof (append_item_fresh (cell r 0) (row_summary r) orders Hfresh)
      as Hsame.
    unfold sheets.append_item in *. rewrite fmap_app, Hsame. simpl.
    by rewrite bool_decide_eq_true_2.
  - intros Hlen Hst Hknown. eexists. split; [apply process_row_run|].
    unfold step. rewrite (proj2 (kept_spec status r)) by done.
    rewrite bool_decide_eq_true_2 by done.
    unfold sheets.append_item. split; [by rewrite length_fmap|].
    intros i k o Hi. rewrite list_lookup_fmap, Hi. simpl.
    case_bool_decide; case_decide; done.
  - eexists. apply process_row_run.
  - intros Hlen. rewrite !process_row_run. by rewrite step_pad.
  - eexists. split; [apply aggregate_run|].
    rewrite aggregate_run. by rewrite <- foldl_step_readable.
Qed.

Lemma read_skips_and_pads_witness :
  sheets.process_row None [] [Some "18"] (quiet_world stub_sheet)
  = (Ok [], quiet_world stub_sheet) ∧
  sheets.process_row None [] [Some "19"; Some "оформлен"]
    (quiet_world plain_sheet)
  = (Ok [(Some "19",
          sheets.Order (Some "19") (Some "оформлен") (Some "") (Some "")
            [sheets.ItemSummary (Some "") (Some "") (Some "") (Some "")
               (Some "")])],
     quiet_world plain_sheet).
Proof.
  split.
  - destruct (read_skips_and_pads None [] stub_sheet [Some "18"]
                (quiet_world stub_sheet)) as (Hskip & _).
    apply Hskip. simpl. lia.
  - destruct (read_skips_and_pads None [] plain_sheet
                [Some "19"; Some "оформлен"] (quiet_world plain_sheet))
      as (_ & _ & Hnew & _).
    apply Hnew.
    + simpl. lia.
    + discriminate.
    + apply not_elem_of_nil.
Defined.

(** ** Changing a status *)

Lemma allowed_lookup r t :
  app.allowed !! r = Some t →
  (r = "picker" ∧ t = Some picker_transitions) ∨
  (r = "courier" ∧ t = Some courier_transitions) ∨
  (r = "admin" ∧ t = None).
Proof.
  unfold app.allowed. rewrite !lookup_insert_Some, lookup_singleton_Some.
  intros [[<- <-]|[_ [[<- <-]|(_ & <- & <-)]]]; auto.
Qed.

Lemma transition_table_elem rl cur ns :
  (rl, cur, ns) ∈ transition_table ↔
  (rl = "picker" ∧ picker_transitions !! cur = Some ns) ∨
  (rl = "courier" ∧ courier_transitions !! cur = Some ns).
Proof.
  unfold transition_table, picker_transitions, courier_transitions.
  rewrite !elem_of_cons, elem_of_nil.
  rewrite !lookup_insert_Some, !lookup_singleton_Some.
  split.
  - intros [H|[H|[H|[H|[]]]]]; injection H as -> -> ->.
    + left. split; [done|]. by left.
    + left. split; [done|]. right. done.
    + right. split; [done|]. by left.
    + right. split; [done|]. right. done.
  - intros [[-> [[<- <-]|(_ & <- & <-)]]|[-> [[<- <-]|(_ & <- & <-)]]]; auto.
Qed.

Lemma transition_denied_false t cur ns :
  app.transition_denied t cur ns = false ↔
  ∃ c, cur = Some c ∧ t !! c = Some ns.
Proof.
  unfold app.transition_denied. destruct cur as [c|]; simpl.
  - destruct (t !! c) as [target|] eqn:Ht.
    + rewrite bool_decide_eq_false. split.
      * intros Hne. exists c. split; [done|]. rewrite Ht. f_equal.
        destruct (decide (target = ns)); [done|]. by destruct Hne.
      * intros (c' & Hc & Hc') Hne. injection Hc as <-. congruence.
    + split; [done|]. intros (c' & Hc & Hc'). injection Hc as <-. congruence.
  - split; [done|]. by intros (c & ? & _).
Qed.

(** The order [set_status] finds among the aggregated ones is the order of
    the first-seen row of the identifier. *)
Lemma find_order (rows : list row) orders oid :
  aggregated None rows orders →
  match List.find (λ o, bool_decide (sheets.o_id o = Some oid)) (snd <$> orders) with
  | Some o =>
      ∃ r : row, first_seen rows (Some oid) = Some r ∧ sheets.o_status o = cell r 1
  | None => first_seen rows (Some oid) = None
  end.
Proof.
  intros Hagg. destruct (aggregated_values _ _ _ Hagg) as [Hids Hvalues].
  destruct Hagg as (_ & Hkeys & _).
  destruct (List.find _ _) as [o|] eqn:Hfind.
  - destruct (find_some_elem _ _ _ Hfind) as [Ho Hid%bool_decide_eq_true].
    destruct (Hvalues o Ho) as (_ & r & Hf & Hst & _). simpl in *.
    exists r. rewrite Hid in Hf. done.
  - destruct (first_seen rows (Some oid)) as [r|] eqn:Hseen; [|done].
    exfalso. destruct (find_some_elem _ _ _ Hseen) as [Hr Hc].
    assert (Hin : Some oid ∈ sheets.o_id <$> (snd <$> orders)).
    { rewrite Hids. apply Hkeys. by exists r. }
    apply list_elem_of_fmap in Hin as (o & Hid & Ho).
    rewrite find_none_iff in Hfind. specialize (Hfind o Ho).
    apply bool_decide_eq_false in Hfind. congruence.
Qed.

Lemma check_transition_run t oid ns w :
  w_faults w (length (w_calls w)) = None →
  app.check_transition (Some t) oid ns w
  = (Ok match first_seen (w_sheet w) (Some oid) with
        | None => Some (app.Abort 404)
        | Some r =>
            if app.transition_denied t (cell r 1) ns
            then Some (app.Abort 403) else None
        end,
     with_call (ValuesGet ColumnsAT) w).
Proof.
  intros Hread. unfold app.check_transition.
  erewrite bind_run by (by apply get_orders_run).
  pose proof (find_order (w_sheet w) _ oid (aggregated_foldl None (w_sheet w)))
    as Hfind.
  destruct (List.find _ _) as [o|].
  - destruct Hfind as (r & -> & ->).
    by destruct (app.transition_denied t (cell r 1) ns).
  - by rewrite Hfind.
Qed.

Lemma check_transition_failed t oid ns w msg :
  w_faults w (length (w_calls w)) = Some msg →
  app.check_transition (Some t) oid ns w
  = (Ok (Some (app.Abort 404)),
     with_line ("Ошибка при чтении заказов: " +:+ msg)
               (with_call (ValuesGet ColumnsAT) w)).
Proof.
  intros Hread. unfold app.check_transition.
  by erewrite bind_run by (by apply get_orders_failed).
Qed.

(** A row that carries the identifier is found in a table that has it. *)
Lemma first_seen_none (rows : list row) oid :
  (∀ r : row, r ∈ rows → r !! 0 ≠ Some oid) → first_seen rows oid = None.
Proof.
  intros Habsent. apply find_none_iff. intros r Hr.
  destruct (carries None oid r) eqn:Hc; [|done].
  apply carries_spec in Hc as (_ & Hid & _). by destruct (Habsent r Hr).
Qed.

(** C5. For the admin the status change goes through whatever the order and
    the target status: the answer is the redirect to the listing of the
    target status, never a refusal, whatever the store does. The handler
    does what [update_status] does and nothing else. Against a store that
    answers, the update is applied: the table keeps its length, every row
    whose first cell is the order identifier has the target status in its
    second cell afterwards, every other row is the row it was, no cell but
    the second of a row has changed, and an order that had a row has a row
    with the target status. The requests are the one read of
    [update_status] and then updates only, one per row of the order, each
    for a single row that carries the target status: no read of the orders
    comes first, and the current status decides nothing. *)
Theorem admin_sets_any_status role_map req oid ns w :
  app.request_role role_map req = Some "admin" →
  ∃ w',
    app.set_status role_map req oid ns w
    = (Ok (listing ns (app.request_uid req)), w') ∧
    sheets.update_status oid ns w = (Ok tt, w') ∧
    (no_faults w →
     w_sheet w' = update_row oid ns <$> w_sheet w ∧
     w_calls w' = w_calls w ++ ValuesGet ColumnsAT ::
                    (update_request <$>
                       sheets.collect_updates oid ns 1 (w_sheet w)) ∧
     length (w_sheet w') = length (w_sheet w) ∧
     (∀ i (r : row), w_sheet w !! i = Some r →
        ∃ r' : row, w_sheet w' !! i = Some r' ∧
          (r !! 0 = Some (Some oid) → r' !! 1 = Some (Some ns)) ∧
          (r !! 0 ≠ Some (Some oid) → r' = r) ∧
          (∀ j, j ≠ 1 → r' !! j = r !! j)) ∧
     (∀ r' : row, r' ∈ w_sheet w' →
        r' !! 0 = Some (Some oid) → r' !! 1 = Some (Some ns)) ∧
     (∀ r : row, r ∈ w_sheet w → r !! 0 = Some (Some oid) →
        ∃ r' : row, r' ∈ w_sheet w' ∧ r' !! 0 = Some (Some oid) ∧
                    r' !! 1 = Some (Some ns)) ∧
     ∃ updates : list request,
       w_calls w' = w_calls w ++ ValuesGet ColumnsAT :: updates ∧
       length updates
       = length (filter (λ r : row, r !! 0 = Some (Some oid)) (w_sheet w)) ∧
       Forall (λ c, ∃ idx (r' : row),
                 c = ValuesUpdate (RowsAT idx idx) [r'] ∧
                 r' !! 0 = Some (Some oid) ∧ r' !! 1 = Some (Some ns))
              updates).
Proof.
  intros Hrole. destruct (update_status_swallowed oid ns w) as (w' & Hrun & _).
  exists w'. split_and!.
  - unfold app.set_status. rewrite Hrole. simpl.
    change (app.allowed !! "admin") with (Some (@None (gmap string string))).
    cbv beta iota. erewrite bind_run by reflexivity.
    cbv beta iota. by erewrite bind_run by apply Hrun.
  - done.
  - intros Hok. rewrite (update_status_run _ _ _ Hok) in Hrun.
    injection Hrun as <-. simpl. split_and!.
    + done.
    + done.
    + by rewrite length_fmap.
    + intros i r Hi. exists (update_row oid ns r).
      rewrite list_lookup_fmap, Hi. simpl.
      destruct (update_row_spec oid ns r) as (H1 & H2 & H3 & _). done.
    + intros r' (r & -> & Hr)%list_elem_of_fmap Hid.
      destruct (update_row_spec oid ns r) as (H1 & _ & _ & H0).
      apply H1. by rewrite <- H0.
    + intros r Hr Hid. exists (update_row oid ns r).
      destruct (update_row_spec oid ns r) as (H1 & _ & _ & H0).
      split_and!; [by apply list_elem_of_fmap_2|by rewrite H0|by apply H1].
    + exists (update_request <$> sheets.collect_updates oid ns 1 (w_sheet w)).
      split_and!.
      * done.
      * rewrite length_fmap. apply collect_updates_length.
      * apply Forall_fmap, Forall_forall. intros [idx r'] Hin.
        apply collect_updates_elem in Hin as (r & _ & _ & Hid & ->).
        exists idx, (sheets.set_status_cell ns r). split_and!.
        -- done.
        -- rewrite set_status_cell_other; [done| |done].
           intros ->. discriminate.
        -- apply set_status_cell_status.
Qed.

Lemma admin_sets_any_status_witness :
  ∃ w', app.set_status admin_map admin_visit "17" "завершён"
          (quiet_world split_sheet)
        = (Ok (listing "завершён" (Some "379185153")), w') ∧
        ∀ r' : row, r' ∈ w_sheet w' → r' !! 0 = Some (Some "17") →
                    r' !! 1 = Some (Some "завершён").
Proof.
  destruct (admin_sets_any_status admin_map admin_visit "17" "завершён"
              (quiet_world split_sheet)) as (w' & Hrun & _ & Hsheet);
    [reflexivity|].
  destruct Hsheet as (_ & _ & _ & _ & Hstatus & _); [intros n; reflexivity|].
  exists w'. split; [exact Hrun|exact Hstatus].
Defined.

Lemma table_role rl t :
  app.allowed !! rl = Some (Some t) →
  rl ≠ "admin" ∧ Some rl ∈ [Some "picker"; Some "courier"] ∧
  ∀ c ns, t !! c = Some ns ↔ (rl, c, ns) ∈ transition_table.
Proof.
  intros [[-> Ht]|[[-> Ht]|[_ Ht]]]%allowed_lookup; [| |done];
    injection Ht as ->; (split; [done|]); (split; [set_unfold; auto|]);
    intros c ns; rewrite transition_table_elem; split; auto.
  - by intros [[_ ?]|[? _]].
  - by intros [[? _]|[_ ?]].
Qed.

Lemma table_role_exists role :
  role ∈ [Some "picker"; Some "courier"] →
  ∃ rl t, role = Some rl ∧ app.allowed !! rl = Some (Some t).
Proof.
  rewrite !elem_of_cons, elem_of_nil. intros [->|[->|[]]].
  - by exists "picker", picker_transitions.
  - by exists "courier", courier_transitions.
Qed.

Lemma set_status_outside role_map req oid ns w :
  app.request_role role_map req ≠ Some "admin" →
  app.request_role role_map req ∉ [Some "picker"; Some "courier"] →
  app.set_status role_map req oid ns w = (Ok (app.Abort 403), w).
Proof.
  intros Hadmin Hrole. unfold app.set_status.
  destruct (app.request_role role_map req) as [rl|]; [|done]. simpl.
  destruct (app.allowed !! rl) as [t|] eqn:Ht; [|done].
  exfalso. apply allowed_lookup in Ht as [[-> _]|[[-> _]|[-> _]]].
  - apply Hrole. set_unfold. auto.
  - apply Hrole. set_unfold. auto.
  - done.
Qed.

(** [set_status] for a role that has its transitions in [allowed]. *)
Lemma set_status_table_role role_map req oid ns w rl t :
  app.request_role role_map req = Some rl →
  app.allowed !! rl = Some (Some t) →
  ∃ resp w',
    app.set_status role_map req oid ns w = (Ok resp, w') ∧
    match w_faults w (length (w_calls w)) with
    | Some _ => resp = app.Abort 404
    | None =>
        match first_seen (w_sheet w) (Some oid) with
        | None => resp = app.Abort 404
        | Some r =>
            if app.transition_denied t (cell r 1) ns
            then resp = app.Abort 403
            else resp = listing ns (app.request_uid req) ∧
                 sheets.update_status oid ns (with_call (ValuesGet ColumnsAT) w)
                 = (Ok tt, w')
        end
    end.
Proof.
  intros Hrole Ht. destruct (table_role _ _ Ht) as (Hadmin & _ & _).
  unfold app.set_status. rewrite Hrole. simpl. rewrite Ht.
  rewrite bool_decide_eq_true_2 by congruence.
  destruct (w_faults w (length (w_calls w))) as [msg|] eqn:Hread.
  - erewrite bind_run by (by apply check_transition_failed).
    by eexists _, _.
  - erewrite bind_run by (by apply check_transition_run).
    destruct (first_seen (w_sheet w) (Some oid)) as [r|]; [|by eexists _, _].
    destruct (app.transition_denied t (cell r 1) ns); [by eexists _, _|].
    destruct (update_status_swallowed oid ns (with_call (ValuesGet ColumnsAT) w))
      as (w' & Hrun & _).
    exists (listing ns (app.request_uid req)), w'.
    cbv beta iota. by erewrite bind_run by apply Hrun.
Qed.

(** C1. For a role other than admin, [set_status] always answers (it never
    raises), and
    - it answers with a redirect only when the role, the status of the
      first-seen row of the order and the target are an entry of the
      transition table, and the redirect is then the one to the listing of
      the target status;
    - a role outside picker and courier gets 403, and nothing happens;
    - picker and courier get 404 for an identifier that no row carries (or no
      row of two cells);
    - when the read of the orders succeeds and the order has a first-seen
      row, they get 403 unless that row's status and the target are an entry
      of the table for the role, and then the redirect, after
      [update_status] has run. *)
Theorem set_status_follows_table role_map req oid ns w :
  app.request_role role_map req ≠ Some "admin" →
  ∃ resp w',
    app.set_status role_map req oid ns w = (Ok resp, w') ∧
    (∀ endpoint values, resp = app.Redirect endpoint values →
       resp = listing ns (app.request_uid req) ∧
       ∃ rl (r : row) cur,
         app.request_role role_map req = Some rl ∧
         first_seen (w_sheet w) (Some oid) = Some r ∧
         r !! 1 = Some (Some cur) ∧
         (rl, cur, ns) ∈ transition_table) ∧
    (app.request_role role_map req ∉ [Some "picker"; Some "courier"] →
     resp = app.Abort 403 ∧ w' = w) ∧
    (app.request_role role_map req ∈ [Some "picker"; Some "courier"] →
     ((∀ r : row, r ∈ w_sheet w → r !! 0 ≠ Some (Some oid)) →
      resp = app.Abort 404) ∧
     (first_seen (w_sheet w) (Some oid) = None → resp = app.Abort 404) ∧
     (∀ rl (r : row),
        w_faults w (length (w_calls w)) = None →
        app.request_role role_map req = Some rl →
        first_seen (w_sheet w) (Some oid) = Some r →
        (∀ cur, r !! 1 = Some (Some cur) → (rl, cur, ns) ∉ transition_table) →
        resp = app.Abort 403) ∧
     (∀ rl (r : row) cur,
        w_faults w (length (w_calls w)) = None →
        app.request_role role_map req = Some rl →
        first_seen (w_sheet w) (Some oid) = Some r →
        r !! 1 = Some (Some cur) →
        (rl, cur, ns) ∈ transition_table →
        resp = listing ns (app.request_uid req) ∧
        sheets.update_status oid ns (with_call (ValuesGet ColumnsAT) w)
        = (Ok tt, w'))).
Proof.
  intros Hadmin.
  destruct (decide (app.request_role role_map req
                    ∈ [Some "picker"; Some "courier"])) as [Hin|Hout].
  - destruct (table_role_exists _ Hin) as (rl & t & Hrole & Ht).
    destruct (table_role _ _ Ht) as (_ & _ & Htable).
    destruct (set_status_table_role role_map req oid ns w rl t Hrole Ht)
      as (resp & w' & Hrun & Hcases).
    exists resp, w'. split; [done|].
    assert (Hcell : ∀ r : row, first_seen (w_sheet w) (Some oid) = Some r →
                               r !! 1 = Some (cell r 1)).
    { intros r [_ Hc%carries_spec]%find_some_elem.
      apply cell_lookup. lia. }
    split_and!.
    + intros endpoint values Hresp.
      destruct (w_faults w (length (w_calls w))); [congruence|].
      destruct (first_seen (w_sheet w) (Some oid)) as [r|] eqn:Hseen;
        [|congruence].
      destruct (app.transition_denied t (cell r 1) ns) eqn:Hden;
        [congruence|].
      destruct Hcases as [-> _]. split; [done|].
      apply transition_denied_false in Hden as (cur & Hcur & Hentry).
      exists rl, r, cur. split_and!; [done|done| |by apply Htable].
      rewrite (Hcell r eq_refl). by rewrite Hcur.
    + done.
    + intros _. split_and!.
      * intros Habsent. rewrite (first_seen_none _ _ Habsent) in Hcases.
        by destruct (w_faults w (length (w_calls w))).
      * intros Hnone. rewrite Hnone in Hcases.
        by destruct (w_faults w (length (w_calls w))).
      * intros rl' r Hread Hrole' Hseen Hno. rewrite Hread, Hseen in Hcases.
        assert (rl' = rl) as -> by congruence.
        destruct (app.transition_denied t (cell r 1) ns) eqn:Hden; [done|].
        apply transition_denied_false in Hden as (cur & Hcur & Hentry).
        exfalso. apply (Hno cur); [|by apply Htable].
        rewrite (Hcell r Hseen). by rewrite Hcur.
      * intros rl' r cur Hread Hrole' Hseen Hcur Hentry.
        rewrite Hread, Hseen in Hcases.
        assert (rl' = rl) as -> by congruence.
        destruct (app.transition_denied t (cell r 1) ns) eqn:Hden; [|done].
        exfalso. apply not_false_iff_true in Hden. apply Hden.
        apply transition_denied_false. exists cur. split; [|by apply Htable].
        rewrite (Hcell r Hseen) in Hcur. congruence.
  - exists (app.Abort 403), w. split; [by apply set_status_outside|].
    split_and!; done.
Qed.

Lemma set_status_follows_table_witness :
  ∃ resp w',
    app.set_status one_picker picker_visit "19" "ожидает поставки"
      (quiet_world plain_sheet) = (Ok resp, w') ∧
    resp = listing "ожидает поставки" (Some "345678901").
Proof.
  destruct (set_status_follows_table one_picker picker_visit "19"
              "ожидает поставки" (quiet_world plain_sheet))
    as (resp & w' & Hrun & _ & _ & Hpicker); [discriminate|].
  exists resp, w'. split; [done|].
  destruct Hpicker as (_ & _ & _ & Hgo).
  - change (app.request_role one_picker picker_visit) with (Some "picker").
    apply list_elem_of_here.
  - apply (Hgo "picker" [Some "19"; Some "оформлен"] "оформлен");
      try reflexivity.
    apply list_elem_of_here.
Defined.

(** ** Parsing the items of a form *)

Lemma string_length_app (s t : string) :
  String.length (s +:+ t) = String.length s + String.length t.
Proof. induction s as [|a s IH]; simpl; [done|]. by rewrite IH. Qed.

Lemma string_app_inj_r (t s1 s2 : string) : s1 +:+ t = s2 +:+ t → s1 = s2.
Proof.
  revert s2. induction s1 as [|a s1 IH]; intros [|b s2] Heq.
  - done.
  - apply (f_equal String.length) in Heq.
    rewrite !string_length_app in Heq. simpl in Heq. lia.
  - apply (f_equal String.length) in Heq.
    rewrite !string_length_app in Heq. simpl in Heq. lia.
  - injection Heq as -> Heq. f_equal. by apply IH.
Qed.

Lemma sku_key_inj : Inj (=) (=) sku_key.
Proof.
  intros i j Heq. unfold sku_key, app.item_prefix in Heq.
  apply string_app_inj_r in Heq. apply String.app_inj in Heq.
  apply string_app_inj_r in Heq. by apply pretty_nat_inj in Heq.
Qed.

Lemma truthy_is_Some (v : value) : truthy v = true → is_Some v.
Proof. destruct v; [by eexists|done]. Qed.

(** The SKU fields of the indices below [n] cannot all be present in a form
    of fewer than [n] fields. *)
Lemma sku_fields_bounded (form : gmap string string) n :
  (∀ i, i < n → truthy (form !! sku_key i) = true) → n ≤ size form.
Proof.
  intros Hall.
  assert (Hsub : list_to_set (sku_key <$> seq 0 n) ⊆ dom form).
  { intros key (i & -> & Hi%elem_of_seq)%elem_of_list_to_set%list_elem_of_fmap.
    apply elem_of_dom, truthy_is_Some, Hall. lia. }
  apply subseteq_size in Hsub.
  rewrite size_dom, size_list_to_set in Hsub.
  - by rewrite length_fmap, length_seq in Hsub.
  - apply NoDup_fmap_2; [apply sku_key_inj|apply NoDup_seq].
Qed.

(** The loop meets an index without SKU within the size of the form. *)
Lemma sku_gap (form : gmap string string) :
  ∃ k, k ≤ size form ∧ truthy (form !! sku_key k) = false ∧
       ∀ i, i < k → truthy (form !! sku_key i) = true.
Proof.
  assert (Hsearch : ∀ n,
            (∃ k, k < n ∧ truthy (form !! sku_key k) = false ∧
                  ∀ i, i < k → truthy (form !! sku_key i) = true) ∨
            (∀ i, i < n → truthy (form !! sku_key i) = true)).
  { induction n as [|n [(k & Hk & Hgap & Hbefore)|Hall]].
    - right. intros i ?. lia.
    - left. exists k. split_and!; [lia|done|done].
    - destruct (truthy (form !! sku_key n)) eqn:Hn.
      + right. intros i Hi. destruct (decide (i = n)) as [->|]; [done|].
        apply Hall. lia.
      + left. exists n. split_and!; [lia|done|done]. }
  destruct (Hsearch (S (size form))) as [(k & Hk & Hgap & Hbefore)|Hall].
  - exists k. split_and!; [lia|done|done].
  - apply sku_fields_bounded in Hall. lia.
Qed.

(** With fuel beyond the first index without SKU, the loop returns the items
    of the indices before it. *)
Lemma item_loop_run (form : gmap string string) :
  ∀ k fuel index,
    k < fuel →
    truthy (form !! sku_key (index + k)) = false →
    (∀ i, i < k → truthy (form !! sku_key (index + i)) = true) →
    app.item_loop fuel index form
    = Some (app.item_fields form <$> seq index k).
Proof.
  induction k as [|k IH]; intros fuel index Hfuel Hgap Hbefore;
    (destruct fuel as [|fuel]; [lia|]); simpl.
  - rewrite Nat.add_0_r in Hgap. fold (sku_key index). by rewrite Hgap.
  - fold (sku_key index). specialize (Hbefore 0) as H0.
    rewrite Nat.add_0_r in H0. rewrite H0 by lia. simpl.
    rewrite (IH fuel (S index)); [done|lia| |].
    + by replace (S index + k) with (index + S k) by lia.
    + intros i Hi. replace (S index + i) with (index + S i) by lia.
      apply Hbefore. lia.
Qed.

Lemma item_loop_fuel (form : gmap string string) :
  ∃ k, k ≤ size form ∧
       app.parse_items form = Some (app.item_fields form <$> seq 0 k) ∧
       truthy (form !! sku_key k) = false ∧
       ∀ i, i < k → truthy (form !! sku_key i) = true.
Proof.
  destruct (sku_gap form) as (k & Hk & Hgap & Hbefore).
  exists k. split_and!; [done| |done|done].
  unfold app.parse_items. apply item_loop_run; [lia|done|done].
Qed.



(** * Further properties *)

(** ** Reading and viewing *)

Lemma get_orders_world status w :
  ∃ res w',
    sheets.get_orders status w = (Ok res, w') ∧
    w_sheet w' = w_sheet w ∧
    w_calls w' = w_calls w ++ [ValuesGet ColumnsAT] ∧
    w_ticks w' = w_ticks w ∧
    (is_Some (w_faults w (length (w_calls w))) → res = []) ∧
    (w_faults w (length (w_calls w)) = None →
     res = snd <$> foldl (step status) [] (w_sheet w) ∧ w_log w' = w_log w).
Proof.
  destruct (w_faults w (length (w_calls w))) as [msg|] eqn:Hread.
  - eexists _, _. split; [by apply (get_orders_failed _ _ msg)|].
    split_and!; done.
  - eexists _, _. split; [by apply get_orders_run|].
    split_and!; done.
Qed.

(** X1. The listing of orders is open to every role, the unassigned one
    included: whatever the role map and the request, [orders] renders the
    orders page and never denies. It reads the table once and writes nothing;
    the status ["all"] reads without filter, any other status filters by it;
    when the read fails the page shows an empty list. *)
Theorem orders_view_unrestricted role_map req status w :
  ∃ res w',
    app.orders role_map req status w
    = (Ok (app.OrdersView (app.request_uid req) status res
             (app.request_role role_map req)), w') ∧
    sheets.get_orders (if decide (status = "all") then None else Some status) w
    = (Ok res, w') ∧
    w_sheet w' = w_sheet w ∧
    w_calls w' = w_calls w ++ [ValuesGet ColumnsAT] ∧
    (is_Some (w_faults w (length (w_calls w))) → res = []).
Proof.
  unfold app.orders.
  assert (Hfilter : (if bool_decide (status ≠ "all") then Some status else None)
                    = (if decide (status = "all") then None else Some status)).
  { destruct (decide (status = "all")) as [->|Hne].
    - by rewrite bool_decide_eq_false_2 by (by intros ?).
    - by rewrite bool_decide_eq_true_2. }
  rewrite Hfilter.
  destruct (get_orders_world
              (if decide (status = "all") then None else Some status) w)
    as (res & w' & Hrun & Hsheet & Hcalls & _ & Hfail & _).
  exists res, w'. erewrite bind_run by apply Hrun. done.
Qed.

Lemma dict_keys_step status orders (r : row) :
  sheets.dict_keys (step status orders r)
  = if kept status r
    then if bool_decide (cell r 0 ∈ sheets.dict_keys orders)
         then sheets.dict_keys orders
         else sheets.dict_keys orders ++ [cell r 0]
    else sheets.dict_keys orders.
Proof.
  unfold step. destruct (kept status r); [|done].
  rewrite dict_keys_append_item. case_bool_decide; [done|].
  unfold sheets.dict_keys. by rewrite fmap_app.
Qed.

Lemma kept_ids_snoc status (rows : list row) (r : row) :
  kept_ids status (rows ++ [r])
  = kept_ids status rows ++ (if kept status r then [cell r 0] else []).
Proof.
  unfold kept_ids. rewrite filter_snoc, fmap_app. by destruct (kept status r).
Qed.

Lemma dict_keys_foldl status (rows : list row) :
  sheets.dict_keys (foldl (step status) [] rows)
  = first_occurrences (kept_ids status rows).
Proof.
  unfold first_occurrences.
  induction rows as [|r rows IH] using rev_ind; [done|].
  rewrite foldl_app. simpl. rewrite dict_keys_step, kept_ids_snoc, IH.
  destruct (kept status r); [|by rewrite app_nil_r].
  rewrite reverse_app. simpl.
  case_bool_decide as Hin; rewrite elem_of_reverse, elem_of_remove_dups in Hin.
  - by destruct (decide_rel elem_of _ _).
  - destruct (decide_rel elem_of _ _); [done|]. by rewrite reverse_cons.
Qed.

(** X2. The orders [get_orders] returns come in the order in which their
    identifiers first appear in the table, among the rows it does not pass
    over: the identifiers of the result are the identifiers of those rows
    with every later repetition left out. *)
Theorem get_orders_first_appearance status w :
  w_faults w (length (w_calls w)) = None →
  ∃ res w',
    sheets.get_orders status w = (Ok res, w') ∧
    sheets.o_id <$> res = first_occurrences (kept_ids status (w_sheet w)).
Proof.
  intros Hread. eexists _, _. split; [by apply get_orders_run|].
  destruct (aggregated_values _ _ _ (aggregated_foldl status (w_sheet w)))
    as [-> _].
  apply dict_keys_foldl.
Qed.

Lemma first_occurrences_example :
  first_occurrences [Some "17"; Some "18"; Some "17"; Some "19"; Some "18"]
  = [Some "17"; Some "18"; Some "19"].
Proof. reflexivity. Qed.

Lemma get_orders_first_appearance_witness :
  ∃ res w',
    sheets.get_orders None (quiet_world split_sheet) = (Ok res, w') ∧
    sheets.o_id <$> res = [Some "17"].
Proof.
  destruct (get_orders_first_appearance None (quiet_world split_sheet))
    as (res & w' & Hrun & Hids); [reflexivity|].
  exists res, w'. split; [done|]. rewrite Hids. reflexivity.
Defined.

Lemma sum_list_app_nat (l1 l2 : list nat) :
  sum_list (l1 ++ l2) = sum_list l1 + sum_list l2.
Proof. induction l1 as [|n l1 IH]; simpl; [done|]. rewrite IH. lia. Qed.

Lemma item_count_values (orders : sheets.orders_dict) k o :
  item_count (snd <$> (orders ++ [(k, o)]))
  = item_count (snd <$> orders) + length (sheets.o_items o).
Proof.
  unfold item_count. rewrite !fmap_app, sum_list_app_nat. simpl. lia.
Qed.

Lemma item_count_cons (orders : sheets.orders_dict) k o :
  item_count (snd <$> ((k, o) :: orders))
  = length (sheets.o_items o) + item_count (snd <$> orders).
Proof. done. Qed.

Lemma append_item_cons oid it (orders : sheets.orders_dict) k o :
  sheets.append_item oid it ((k, o) :: orders)
  = (if bool_decide (k = oid)
     then (k, sheets.Order (sheets.o_id o) (sheets.o_status o) (sheets.o_date o)
                (sheets.o_customer_name o) (sheets.o_items o ++ [it]))
     else (k, o)) :: sheets.append_item oid it orders.
Proof. done. Qed.

Lemma item_count_append_item oid it (orders : sheets.orders_dict) :
  NoDup (sheets.dict_keys orders) → oid ∈ sheets.dict_keys orders →
  item_count (snd <$> sheets.append_item oid it orders)
  = S (item_count (snd <$> orders)).
Proof.
  induction orders as [|[k o] orders IH]; intros Hnodup Hin.
  - by apply elem_of_nil in Hin.
  - change (sheets.dict_keys ((k, o) :: orders))
      with (k :: sheets.dict_keys orders) in *.
    apply NoDup_cons in Hnodup as [Hk Hnodup].
    rewrite append_item_cons. case_bool_decide as Hoid.
    + subst k. rewrite (append_item_fresh oid it orders Hk).
      rewrite !item_count_cons. simpl. rewrite length_app. simpl. lia.
    + apply elem_of_cons in Hin as [->|Hin]; [done|].
      rewrite !item_count_cons, IH by done. lia.
Qed.

Lemma item_count_step status (rows : list row) orders (r : row) :
  aggregated status rows orders →
  item_count (snd <$> step status orders r)
  = item_count (snd <$> orders) + (if kept status r then 1 else 0).
Proof.
  intros (Hnodup & _ & _). unfold step.
  destruct (kept status r); [|lia].
  case_bool_decide as Hin.
  - rewrite item_count_append_item by done. lia.
  - rewrite item_count_append_item.
    + rewrite item_count_values. simpl. lia.
    + unfold sheets.dict_keys in *. rewrite fmap_app. simpl.
      apply NoDup_app. split_and!; [done| |apply NoDup_singleton].
      intros k Hk ->%list_elem_of_singleton. done.
    + unfold sheets.dict_keys. rewrite fmap_app. simpl.
      apply elem_of_app. right. apply list_elem_of_here.
Qed.

Lemma item_count_foldl status (rows : list row) :
  item_count (snd <$> foldl (step status) [] rows)
  = length (List.filter (kept status) rows).
Proof.
  induction rows as [|r rows IH] using rev_ind; [done|].
  rewrite foldl_app. simpl.
  rewrite (item_count_step status rows) by apply aggregated_foldl.
  rewrite IH, filter_snoc, length_app. by destruct (kept status r).
Qed.

(** X3. The aggregation of [get_orders] loses no row and counts none twice:
    the items of all orders it returns are as many as the rows of the table
    that have two cells at least and, under a non-empty filter, the status of
    the filter. *)
Theorem get_orders_counts_rows status w :
  w_faults w (length (w_calls w)) = None →
  ∃ res w',
    sheets.get_orders status w = (Ok res, w') ∧
    item_count res
    = length (filter (λ r : row, 2 ≤ length r ∧
                        (truthy status = true → r !! 1 = Some status))
                     (w_sheet w)).
Proof.
  intros Hread. eexists _, _. split; [by apply get_orders_run|].
  rewrite item_count_foldl. generalize (w_sheet w). intros rows.
  induction rows as [|r rows IH]; [done|].
  simpl. rewrite filter_cons. destruct (kept status r) eqn:Hkept.
  - rewrite decide_True by (by apply kept_spec). simpl. by rewrite IH.
  - rewrite decide_False; [done|].
    intros Hk%kept_spec. congruence.
Qed.

Lemma get_orders_counts_rows_witness :
  ∃ res w',
    sheets.get_orders (Some "сборка") (quiet_world split_sheet) = (Ok res, w') ∧
    item_count res = 1.
Proof.
  destruct (get_orders_counts_rows (Some "сборка") (quiet_world split_sheet))
    as (res & w' & Hrun & Hcount); [reflexivity|].
  exists res, w'. split; [done|]. rewrite Hcount. reflexivity.
Defined.

(** ** Appending, then reading *)

Lemma append_item_last oid it (orders : sheets.orders_dict) o :
  oid ∉ sheets.dict_keys orders →
  sheets.append_item oid it (orders ++ [(oid, o)])
  = orders ++ [(oid, sheets.Order (sheets.o_id o) (sheets.o_status o)
                       (sheets.o_date o) (sheets.o_customer_name o)
                       (sheets.o_items o ++ [it]))].
Proof.
  intros Hfresh.
  pose proof (append_item_fresh oid it orders Hfresh) as Hsame.
  unfold sheets.append_item in *. rewrite fmap_app, Hsame. simpl.
  by rewrite bool_decide_eq_true_2.
Qed.

(** Rows that all carry one identifier go to the entry of that identifier. *)
Lemma foldl_step_same_order status (rows : list row) :
  ∀ orders oid st date cn its,
    oid ∉ sheets.dict_keys orders →
    Forall (λ r : row, kept status r = true ∧ cell r 0 = oid) rows →
    foldl (step status) (orders ++ [(oid, sheets.Order oid st date cn its)]) rows
    = orders ++ [(oid, sheets.Order oid st date cn
                         (its ++ (row_summary <$> rows)))].
Proof.
  induction rows as [|r rows IH]; intros orders oid st date cn its Hfresh Hrows.
  - simpl. by rewrite app_nil_r.
  - apply Forall_cons in Hrows as [[Hkept Hid] Hrows]. simpl.
    unfold step at 2. rewrite Hkept, Hid.
    rewrite bool_decide_eq_true_2.
    + rewrite append_item_last by done. simpl.
      rewrite IH by done. by rewrite <- app_assoc.
    + unfold sheets.dict_keys. rewrite fmap_app. simpl.
      apply elem_of_app. right. apply list_elem_of_here.
Qed.

Lemma foldl_step_new_order status (r : row) (rows : list row) orders :
  cell r 0 ∉ sheets.dict_keys orders →
  Forall (λ x : row, kept status x = true ∧ cell x 0 = cell r 0) (r :: rows) →
  foldl (step status) orders (r :: rows)
  = orders ++ [(cell r 0,
                sheets.Order (cell r 0) (cell r 1) (cell r 2) (cell r 14)
                             (row_summary <$> (r :: rows)))].
Proof.
  intros Hfresh [[Hkept _] Hrows]%Forall_cons. simpl.
  unfold step at 2. rewrite Hkept.
  rewrite bool_decide_eq_false_2 by done.
  rewrite append_item_last by done. simpl.
  by rewrite foldl_step_same_order.
Qed.

Lemma row_summary_order_row od item now :
  row_summary (sheets.order_row od item now) = stored_item item.
Proof. done. Qed.

Lemma rows_at_summaries od now (items : list dict) :
  ∀ t, row_summary <$> rows_at od now t items = stored_item <$> items.
Proof.
  induction items as [|item items IH]; intros t; simpl; [done|].
  by rewrite IH.
Qed.

Lemma rows_at_carry od now status (items : list dict) :
  (truthy status = true →
   dict_get od "status" (Some "оформлен") = status) →
  ∀ t, Forall (λ r : row, kept status r = true ∧
                          cell r 0 = dict_get od "id" (Some ""))
              (rows_at od now t items).
Proof.
  intros Hstatus. induction items as [|item items IH]; intros t; simpl.
  - constructor.
  - constructor; [|apply IH]. split; [|done].
    apply kept_spec. split; [simpl; lia|]. intros Htruthy.
    simpl. by rewrite (Hstatus Htruthy).
Qed.

(** The aggregation of a table to which the rows of a new order have been
    appended. *)
Lemma foldl_step_appended status od now t (items : list dict) (s : list row) :
  (truthy status = true →
   dict_get od "status" (Some "оформлен") = status) →
  (∀ r : row, r ∈ s → 2 ≤ length r → r !! 0 ≠ Some (dict_get od "id" (Some ""))) →
  snd <$> foldl (step status) [] (s ++ rows_at od now t items)
  = (snd <$> foldl (step status) [] s)
    ++ match items with
       | [] => []
       | _ :: _ => [stored_order od (now t) items]
       end.
Proof.
  intros Hstatus Hfresh. rewrite foldl_app.
  destruct items as [|item items]; [simpl; by rewrite app_nil_r|].
  pose proof (rows_at_carry od now status (item :: items) Hstatus t) as Hrows.
  destruct (aggregated_foldl status s) as (_ & Hkeys & _).
  change (rows_at od now t (item :: items))
    with (sheets.order_row od item (now t) :: rows_at od now (S t) items) in *.
  rewrite foldl_step_new_order.
  - rewrite fmap_app. simpl. unfold stored_order. simpl.
    by rewrite rows_at_summaries.
  - change (cell (sheets.order_row od item (now t)) 0)
      with (dict_get od "id" (Some "")).
    intros (r & Hr & (Hlen & Hid & _)%carries_spec)%Hkeys.
    by apply (Hfresh r).
  - exact Hrows.
Qed.

(** X4. Appending, then reading (no request failing): when no row of two
    cells or more carries the identifier of the order yet, the unfiltered
    [get_orders] after [append_order] returns what it returned before,
    followed by one record for the new order, with the identifier, status,
    date and customer of the order data and one item per appended item, in
    their order; nothing is added when the order has no items. *)
Theorem append_then_read od (items : list dict) w :
  no_faults w →
  (∀ r : row, r ∈ w_sheet w → 2 ≤ length r →
              r !! 0 ≠ Some (dict_get od "id" (Some ""))) →
  ∃ before w0 w1 after w2,
    sheets.get_orders None w = (Ok before, w0) ∧
    sheets.append_order od items w = (Ok tt, w1) ∧
    sheets.get_orders None w1 = (Ok after, w2) ∧
    after = before ++ match items with
                      | [] => []
                      | _ :: _ =>
                          [stored_order od (w_now w (w_ticks w)) items]
                      end.
Proof.
  intros Hok Hfresh. eexists _, _, _, _, _.
  split; [apply get_orders_run, Hok|].
  split; [apply append_order_run; apply Hok|].
  split; [apply get_orders_run, Hok|]. simpl.
  by apply foldl_step_appended.
Qed.

Lemma append_then_read_witness :
  ∃ before w0 w1 after w2,
    sheets.get_orders None (quiet_world plain_sheet) = (Ok before, w0) ∧
    sheets.append_order undated_order two_items (quiet_world plain_sheet)
    = (Ok tt, w1) ∧
    sheets.get_orders None w1 = (Ok after, w2) ∧
    after = before ++ [stored_order undated_order "2024-05-01 10:00" two_items].
Proof.
  apply (append_then_read undated_order two_items (quiet_world plain_sheet)).
  - intros n. reflexivity.
  - intros r ->%list_elem_of_singleton _. discriminate.
Defined.

(** ** Appending under failures *)

Lemma append_order_read_failed od (items : list dict) w msg :
  w_faults w (length (w_calls w)) = Some msg →
  sheets.append_order od items w
  = (Ok tt,
     World (w_sheet w) (w_faults w) (w_calls w ++ [ValuesGet ColumnA])
           (w_log w ++ ["Ошибка при чтении таблицы: " +:+ msg])
           (w_now w) (w_epoch w) (w_ticks w + length items)).
Proof.
  intros Hread. unfold sheets.append_order.
  erewrite bind_run by apply build_rows_run.
  unfold bind, try_except_HttpError, values_get. simpl. by rewrite Hread.
Qed.

Lemma append_order_write_failed od (items : list dict) w msg :
  w_faults w (length (w_calls w)) = None →
  w_faults w (S (length (w_calls w))) = Some msg →
  ∃ rng rows,
    sheets.append_order od items w
    = (Ok tt,
       World (w_sheet w) (w_faults w)
             (w_calls w ++ [ValuesGet ColumnA; ValuesUpdate rng rows])
             (w_log w ++ ["Ошибка при записи таблицы: " +:+ msg])
             (w_now w) (w_epoch w) (w_ticks w + length items)).
Proof.
  intros Hread Hwrite. eexists _, _. unfold sheets.append_order.
  erewrite bind_run by apply build_rows_run.
  unfold bind, try_except_HttpError, values_get, values_update. simpl.
  rewrite Hread. simpl. rewrite length_app. simpl.
  rewrite Nat.add_1_r, Hwrite. unfold print, with_line, with_call. simpl.
  by rewrite <- app_assoc.
Qed.

(** X5. [append_order] is all or nothing, whatever requests fail: the table
    afterwards is the table before followed by all rows of the order, or the
    table before; no row that was there is changed; and the rows are there
    exactly when neither the read of the identifier column nor the update
    failed. *)
Theorem append_order_all_or_nothing od (items : list dict) w :
  ∃ w' (written : list row),
    sheets.append_order od items w = (Ok tt, w') ∧
    w_sheet w' = w_sheet w ++ written ∧
    (failed_between w w' → written = []) ∧
    (¬ failed_between w w' →
     written = rows_at od (w_now w) (w_ticks w) items).
Proof.
  destruct (w_faults w (length (w_calls w))) as [msg|] eqn:Hread.
  - eexists _, []. split; [by apply (append_order_read_failed _ _ _ msg)|].
    simpl. split_and!; [by rewrite app_nil_r|done|].
    intros Hnot. exfalso. apply Hnot. exists (length (w_calls w)). simpl.
    rewrite length_app. simpl. rewrite Hread. split; [lia|by eexists].
  - destruct (w_faults w (S (length (w_calls w)))) as [msg|] eqn:Hwrite.
    + destruct (append_order_write_failed od items w msg Hread Hwrite)
        as (rng & rows & Hrun).
      eexists _, []. split; [exact Hrun|].
      simpl. split_and!; [by rewrite app_nil_r|done|].
      intros Hnot. exfalso. apply Hnot. exists (S (length (w_calls w))).
      simpl. rewrite length_app. simpl. rewrite Hwrite.
      split; [lia|by eexists].
    + eexists _, _. split; [by apply append_order_run|].
      simpl. split_and!; [done| |done].
      intros (n & Hn & [msg Hmsg]). simpl in Hn.
      rewrite length_app in Hn. simpl in Hn.
      assert (n = length (w_calls w) ∨ n = S (length (w_calls w)))
        as [->| ->] by lia; congruence.
Qed.

(** ** Updating a status under failures, and twice *)

Lemma update_row_app oid ns (pre : list row) (r : row) (rest : list row) k :
  pre ++ [update_row oid ns r]
  ++ (update_row oid ns <$> take k rest) ++ drop k rest
  = pre ++ (update_row oid ns <$> take (S k) (r :: rest))
    ++ drop (S k) (r :: rest).
Proof. done. Qed.

(** The second loop of [update_status] against any store: the rows up to
    some position are rewritten, the rows from there on are as they were. *)
Lemma send_updates_partial oid ns (rows : list row) :
  ∀ (pre : list row) w,
    w_sheet w = pre ++ rows →
    ∃ k res w',
      sheets.send_updates
        (sheets.collect_updates oid ns (S (length pre)) rows) w = (res, w') ∧
      k ≤ length rows ∧
      w_sheet w' = pre ++ (update_row oid ns <$> take k rows) ++ drop k rows ∧
      (res = Ok tt → k = length rows).
Proof.
  induction rows as [|r rest IH]; intros pre w Hsheet.
  - exists 0, (Ok tt), w. simpl. split_and!; [done|lia|done|done].
  - simpl. destruct (sheets.row_matches oid r) eqn:Hm.
    + simpl. unfold bind at 1. unfold values_update.
      destruct (w_faults w (length (w_calls w))) as [msg|] eqn:Hf.
      * eexists 0, _, _. split; [done|]. simpl.
        split_and!; [lia|done|done].
      * set (r' := sheets.set_status_cell ns r).
        set (w1 := with_sheet _ _).
        assert (Hs1 : w_sheet w1 = (pre ++ [r']) ++ rest).
        { subst w1. simpl. unfold write_range. simpl.
          rewrite Nat.sub_0_r, Hsheet, write_row_middle.
          rewrite write_cells_covering.
          - by rewrite <- app_assoc.
          - subst r'. rewrite length_set_status_cell. lia. }
        destruct (IH (pre ++ [r']) w1 Hs1) as (k & res & w' & Hrun & Hk & Hs & Hall).
        rewrite length_app in Hrun. simpl in Hrun.
        rewrite Nat.add_1_r in Hrun.
        exists (S k), res, w'. split; [done|]. split_and!.
        -- simpl. lia.
        -- rewrite Hs, <- app_assoc. simpl. unfold update_row at 2.
           by rewrite Hm.
        -- intros Hres. simpl. by rewrite Hall.
    + assert (Hs1 : w_sheet w = (pre ++ [r]) ++ rest)
        by (by rewrite <- app_assoc).
      destruct (IH (pre ++ [r]) w Hs1) as (k & res & w' & Hrun & Hk & Hs & Hall).
      rewrite length_app in Hrun. simpl in Hrun.
      rewrite Nat.add_1_r in Hrun.
      exists (S k), res, w'. split; [done|]. split_and!.
      * simpl. lia.
      * rewrite Hs, <- app_assoc. simpl. unfold update_row at 2.
        by rewrite Hm.
      * intros Hres. simpl. by rewrite Hall.
Qed.

(** X6. Whatever requests fail, [update_status] leaves a table of which the
    rows up to some position are rewritten as a full update rewrites them,
    and the rows from there on are untouched: a failure stops the rewriting
    where it strikes and undoes nothing. With no failure every row is
    rewritten. *)
Theorem update_status_stops_at_failure oid ns w :
  ∃ w' k,
    sheets.update_status oid ns w = (Ok tt, w') ∧
    k ≤ length (w_sheet w) ∧
    w_sheet w'
    = (update_row oid ns <$> take k (w_sheet w)) ++ drop k (w_sheet w) ∧
    (¬ failed_between w w' → k = length (w_sheet w)).
Proof.
  unfold sheets.update_status, try_except_HttpError.
  unfold bind at 1. unfold values_get.
  destruct (w_faults w (length (w_calls w))) as [msg|] eqn:Hread.
  - simpl. eexists _, 0. split; [done|]. simpl.
    split_and!; [lia|by rewrite drop_0|].
    intros Hnot. exfalso. apply Hnot. exists (length (w_calls w)). simpl.
    rewrite length_app. simpl. rewrite Hread. split; [lia|by eexists].
  - simpl. set (w1 := with_call _ w).
    destruct (send_updates_partial oid ns (w_sheet w) [] w1 eq_refl)
      as (k & res & w' & Hrun & Hk & Hs & Hall).
    simpl in Hrun. rewrite Hrun.
    pose proof (send_updates_store_run _ _ _ _ Hrun) as Hstore.
    destruct res as [[]|[msg| | |]];
      try by destruct Hstore as (_ & _ & _ & []).
    + exists w', k. split_and!; [done|done|done|]. intros _. by apply Hall.
    + eexists _, k. split; [done|]. simpl. split_and!; [done|done|].
      intros Hnot. exfalso. apply Hnot.
      destruct Hstore as (_ & _ & _ & n & Hlen & Hle & Hmsg & _).
      exists n. simpl. subst w1. simpl in *. rewrite length_app in Hle.
      split; [simpl in Hle; lia|by eexists].
Qed.

Lemma update_row_idempotent oid ns (r : row) :
  update_row oid ns (update_row oid ns r) = update_row oid ns r.
Proof.
  unfold update_row. destruct (sheets.row_matches oid r) eqn:Hm; [|by rewrite Hm].
  assert (Hm' : sheets.row_matches oid (sheets.set_status_cell ns r) = true).
  { apply row_matches_spec. rewrite set_status_cell_other; [|by eapply row_matches_nonempty|done].
    by apply row_matches_spec. }
  rewrite Hm'. unfold sheets.set_status_cell at 1.
  assert (Hlen : 2 ≤ length (sheets.set_status_cell ns r))
    by (rewrite length_set_status_cell; lia).
  unfold sheets.pad_to.
  replace (2 - length (sheets.set_status_cell ns r)) with 0 by lia.
  simpl. rewrite app_nil_r. apply list_insert_id, set_status_cell_status.
Qed.

(** X7. [update_status] is idempotent on the table: run a second time with
    the same identifier and status, no request failing, it leaves the table
    the first run left (it still sends its updates). *)
Theorem update_status_idempotent oid ns w :
  no_faults w →
  ∃ w1 w2,
    sheets.update_status oid ns w = (Ok tt, w1) ∧
    sheets.update_status oid ns w1 = (Ok tt, w2) ∧
    w_sheet w2 = w_sheet w1 ∧
    length (w_calls w2) - length (w_calls w1)
    = length (w_calls w1) - length (w_calls w).
Proof.
  intros Hok. eexists _, _.
  split; [by apply update_status_run|].
  split; [apply update_status_run; intros n; apply Hok|]. simpl.
  split.
  - rewrite <- list_fmap_compose. apply list_fmap_ext.
    intros i r _. apply update_row_idempotent.
  - repeat (progress (rewrite ?length_app, ?length_fmap; simpl)).
    rewrite !collect_updates_length.
    assert (Hsame : ∀ rows : list row,
              length (filter (λ r : row, r !! 0 = Some (Some oid))
                        (update_row oid ns <$> rows))
              = length (filter (λ r : row, r !! 0 = Some (Some oid)) rows)).
    { induction rows as [|r rows IH]; [done|].
      cbn [fmap list_fmap]. rewrite !filter_cons.
      destruct (update_row_spec oid ns r) as (_ & _ & _ & H0).
      rewrite H0. case_decide; simpl; by rewrite IH. }
    rewrite Hsame. lia.
Qed.

Lemma update_status_idempotent_witness :
  ∃ w1 w2,
    sheets.update_status "17" "доставка" (quiet_world split_sheet) = (Ok tt, w1) ∧
    sheets.update_status "17" "доставка" w1 = (Ok tt, w2) ∧
    w_sheet w2 = w_sheet w1.
Proof.
  destruct (update_status_idempotent "17" "доставка" (quiet_world split_sheet))
    as (w1 & w2 & H1 & H2 & Hs & _); [intros n; reflexivity|].
  by exists w1, w2.
Defined.

(** ** Updating, then reading *)

Lemma carries_update_row status k oid ns (r : row) :
  k ≠ Some oid →
  carries status k (update_row oid ns r) = carries status k r ∧
  (carries status k r = true → update_row oid ns r = r).
Proof.
  intros Hk. destruct (update_row_spec oid ns r) as (_ & Hsame & _ & H0).
  destruct (decide (r !! 0 = Some (Some oid))) as [Hid|Hid].
  - assert (Hr : carries status k r = false).
    { destruct (carries status k r) eqn:Hc; [|done].
      apply carries_spec in Hc as (_ & Hc & _). congruence. }
    assert (Hu : carries status k (update_row oid ns r) = false).
    { destruct (carries status k (update_row oid ns r)) eqn:Hc; [|done].
      apply carries_spec in Hc as (_ & Hc & _). congruence. }
    rewrite Hr, Hu. done.
  - rewrite (Hsame Hid). done.
Qed.

Lemma find_update_row status k oid ns (rows : list row) :
  k ≠ Some oid →
  List.find (carries status k) (update_row oid ns <$> rows)
  = List.find (carries status k) rows.
Proof.
  intros Hk. induction rows as [|r rows IH]; [done|].
  cbn [fmap list_fmap List.find].
  destruct (carries_update_row status k oid ns r Hk) as [-> Hsame].
  destruct (carries status k r); [by rewrite Hsame|done].
Qed.

Lemma filter_update_row status k oid ns (rows : list row) :
  k ≠ Some oid →
  List.filter (carries status k) (update_row oid ns <$> rows)
  = List.filter (carries status k) rows.
Proof.
  intros Hk. induction rows as [|r rows IH]; [done|].
  cbn [fmap list_fmap List.filter].
  destruct (carries_update_row status k oid ns r Hk) as [-> Hsame].
  destruct (carries status k r); [by rewrite Hsame, IH|done].
Qed.

Lemma described_unique status (rows : list row) k o o' :
  described status rows (k, o) → described status rows (k, o') → o = o'.
Proof.
  intros (Hid & r & Hf & Hst & Hd & Hn & Hi) (Hid' & r' & Hf' & Hst' & Hd' & Hn' & Hi').
  simpl in *. assert (r' = r) as -> by congruence.
  destruct o, o'. simpl in *. congruence.
Qed.

(** The records of a result are the described ones of its identifiers. *)
Lemma result_elem status (rows : list row) o :
  o ∈ snd <$> foldl (step status) [] rows ↔
  (∃ r : row, r ∈ rows ∧ carries status (sheets.o_id o) r = true) ∧
  described status rows (sheets.o_id o, o).
Proof.
  pose proof (aggregated_foldl status rows) as Hagg.
  destruct (aggregated_values _ _ _ Hagg) as [Hids Hvalues].
  destruct Hagg as (_ & Hkeys & _). split.
  - intros Ho. split; [|by apply Hvalues].
    apply Hkeys. rewrite <- Hids. apply list_elem_of_fmap. by exists o.
  - intros [Hin Hdesc]. apply Hkeys in Hin. rewrite <- Hids in Hin.
    apply list_elem_of_fmap in Hin as (o' & Hid & Ho').
    pose proof (Hvalues o' Ho') as Hdesc'. rewrite <- Hid in Hdesc'.
    by rewrite (described_unique _ _ _ _ _ Hdesc Hdesc').
Qed.

Lemma carried_iff_found status k (rows : list row) :
  (∃ r : row, r ∈ rows ∧ carries status k r = true) ↔
  is_Some (List.find (carries status k) rows).
Proof.
  split.
  - intros (r & Hr & Hc). destruct (find_is_some _ _ _ Hr Hc) as [y ->].
    by eexists.
  - intros [r Hr]. exists r. by apply find_some_elem.
Qed.

(** X8. Updating, then reading (no request failing). The orders of the
    other identifiers are read after [update_status] as they were read
    before, under any filter: same records, same items. Read without filter,
    the order of the updated identifier has the new status, and it is
    returned as soon as some row carries its identifier, were it a row of one
    cell. *)
Theorem update_then_read status oid ns w :
  no_faults w →
  ∃ before w0 w1 after w2,
    sheets.get_orders status w = (Ok before, w0) ∧
    sheets.update_status oid ns w = (Ok tt, w1) ∧
    sheets.get_orders status w1 = (Ok after, w2) ∧
    (∀ o, sheets.o_id o ≠ Some oid → o ∈ after ↔ o ∈ before) ∧
    (truthy status = false →
     (∀ o, o ∈ after → sheets.o_id o = Some oid →
           sheets.o_status o = Some ns) ∧
     ((∃ r : row, r ∈ w_sheet w ∧ r !! 0 = Some (Some oid)) →
      Some oid ∈ sheets.o_id <$> after)).
Proof.
  intros Hok. eexists _, _, _, _, _.
  split; [apply get_orders_run, Hok|].
  split; [by apply update_status_run|].
  split; [apply get_orders_run, Hok|]. simpl. split.
  - intros o Hid. rewrite !result_elem, !carried_iff_found.
    unfold described, first_kept, items_of. simpl.
    by rewrite find_update_row, filter_update_row.
  - intros Hfalsy. split.
    + intros o [_ (_ & r & Hf & Hst & _)]%result_elem Hid. simpl in *.
      rewrite Hid in Hf.
      apply find_some_elem in Hf as [Hr Hc%carries_spec].
      destruct Hc as (Hlen & Hr0 & _).
      apply list_elem_of_fmap in Hr as (r0 & -> & _).
      destruct (update_row_spec oid ns r0) as (Hnew & _ & _ & H0).
      rewrite H0 in Hr0. specialize (Hnew Hr0).
      rewrite Hst. unfold cell. by rewrite Hnew.
    + intros (r0 & Hr0 & Hid0).
      destruct (update_row_spec oid ns r0) as (Hnew & _ & _ & H0).
      specialize (Hnew Hid0).
      destruct (aggregated_values _ _ _
                  (aggregated_foldl status (update_row oid ns <$> w_sheet w)))
        as [-> _].
      destruct (aggregated_foldl status (update_row oid ns <$> w_sheet w))
        as (_ & Hkeys & _).
      apply Hkeys. exists (update_row oid ns r0). split.
      * apply list_elem_of_fmap. by exists r0.
      * apply carries_spec. split_and!.
        -- by apply lookup_lt_Some in Hnew.
        -- by rewrite H0.
        -- intros Htruthy. congruence.
Qed.

Lemma update_then_read_witness :
  ∃ w1 after w2,
    sheets.update_status "18" "сборка" (quiet_world stub_sheet) = (Ok tt, w1) ∧
    sheets.get_orders None w1 = (Ok after, w2) ∧
    Some "18" ∈ sheets.o_id <$> after.
Proof.
  destruct (update_then_read None "18" "сборка" (quiet_world stub_sheet))
    as (before & w0 & w1 & after & w2 & _ & H1 & H2 & _ & Hnew);
    [intros n; reflexivity|].
  exists w1, after, w2. split_and!; [done|done|].
  apply Hnew; [done|]. exists [Some "18"].
  split; [apply list_elem_of_here|reflexivity].
Defined.

(** ** Status changes, denied and granted *)

(** [set_status] against any store: a denial, after at most the one read of
    the orders, or the redirect, after [update_status] has run. *)
Lemma set_status_outcome role_map req oid ns w :
  ∃ resp w',
    app.set_status role_map req oid ns w = (Ok resp, w') ∧
    ((∃ code, resp = app.Abort code ∧ (code = 403 ∨ code = 404) ∧
              w_sheet w' = w_sheet w ∧
              (w_calls w' = w_calls w ∨
               w_calls w' = w_calls w ++ [ValuesGet ColumnsAT])) ∨
     (resp = listing ns (app.request_uid req) ∧
      ∃ w0, w_sheet w0 = w_sheet w ∧ w_faults w0 = w_faults w ∧
            sheets.update_status oid ns w0 = (Ok tt, w'))).
Proof.
  unfold app.set_status.
  destruct (app.request_role role_map req) as [rl|] eqn:Hrole; simpl;
    [|eexists _, _; split; [done|]; left; exists 403; auto].
  destruct (app.allowed !! rl) as [[t|]|] eqn:Ht.
  - destruct (table_role _ _ Ht) as (Hadmin & _ & _).
    rewrite bool_decide_eq_true_2 by congruence.
    destruct (w_faults w (length (w_calls w))) as [msg|] eqn:Hread.
    + erewrite bind_run by (by apply check_transition_failed).
      eexists _, _. split; [done|]. left. exists 404. simpl. auto.
    + erewrite bind_run by (by apply check_transition_run).
      destruct (first_seen (w_sheet w) (Some oid)) as [r|].
      * destruct (app.transition_denied t (cell r 1) ns).
        -- eexists _, _. split; [done|]. left. exists 403. simpl. auto.
        -- destruct (update_status_swallowed oid ns
                       (with_call (ValuesGet ColumnsAT) w)) as (w' & Hrun & _).
           exists (listing ns (app.request_uid req)), w'.
           cbv beta iota. erewrite bind_run by apply Hrun.
           split; [done|]. right. split; [done|].
           by exists (with_call (ValuesGet ColumnsAT) w).
      * eexists _, _. split; [done|]. left. exists 404. simpl. auto.
  - apply allowed_lookup in Ht as [[_ [=]]|[[_ [=]]|[-> _]]].
    rewrite bool_decide_eq_false_2 by (by intros ?).
    destruct (update_status_swallowed oid ns w) as (w' & Hrun & _).
    exists (listing ns (app.request_uid req)), w'.
    erewrite bind_run by reflexivity.
    cbv beta iota. erewrite bind_run by apply Hrun.
    split; [done|]. right. split; [done|]. by exists w.
  - eexists _, _. split; [done|]. left. exists 403. auto.
Qed.

(** X9. A status change that is denied changes nothing: whatever the role,
    the request and the failures of the store, when [set_status] answers with
    an abort, the code is 403 or 404, the table is as it was, and no update
    was sent (the only request, if any, is the read of the orders). *)
Theorem denied_status_change_writes_nothing role_map req oid ns w code w' :
  app.set_status role_map req oid ns w = (Ok (app.Abort code), w') →
  (code = 403 ∨ code = 404) ∧
  w_sheet w' = w_sheet w ∧
  (w_calls w' = w_calls w ∨ w_calls w' = w_calls w ++ [ValuesGet ColumnsAT]).
Proof.
  intros Hrun.
  destruct (set_status_outcome role_map req oid ns w)
    as (resp & w1 & Hrun1 & [(code1 & -> & Hcode & Hsheet & Hcalls)|[-> _]]);
    rewrite Hrun in Hrun1; [|discriminate].
  injection Hrun1 as -> ->. done.
Qed.

Lemma denied_status_change_writes_nothing_witness :
  ∃ w',
    app.set_status one_picker picker_visit "19" "сборка"
      (quiet_world plain_sheet) = (Ok (app.Abort 403), w') ∧
    w_sheet w' = plain_sheet.
Proof.
  eexists. split; [reflexivity|].
  eapply (denied_status_change_writes_nothing one_picker picker_visit "19"
            "сборка" (quiet_world plain_sheet) 403).
  reflexivity.
Defined.

(** After a full update the order is listed under the new status, by the
    unfiltered listing and by the listing of that status. *)
Lemma updated_order_listed status oid ns (rows : list row) :
  (truthy status = true → status = Some ns) →
  (∃ r : row, r ∈ rows ∧ r !! 0 = Some (Some oid)) →
  ∃ o, o ∈ snd <$> foldl (step status) [] (update_row oid ns <$> rows) ∧
       sheets.o_id o = Some oid ∧ sheets.o_status o = Some ns.
Proof.
  intros Hstatus (r0 & Hr0 & Hid0).
  set (rows' := update_row oid ns <$> rows).
  pose proof (aggregated_foldl status rows') as Hagg.
  destruct (aggregated_values _ _ _ Hagg) as [Hids Hvalues].
  destruct Hagg as (_ & Hkeys & _).
  assert (Hin : Some oid ∈ sheets.o_id <$> (snd <$> foldl (step status) [] rows')).
  { rewrite Hids. apply Hkeys. exists (update_row oid ns r0).
    destruct (update_row_spec oid ns r0) as (Hnew & _ & _ & H0).
    specialize (Hnew Hid0). split.
    - apply list_elem_of_fmap. by exists r0.
    - apply carries_spec. split_and!.
      + by apply lookup_lt_Some in Hnew.
      + by rewrite H0.
      + intros Htruthy. rewrite (Hstatus Htruthy). done. }
  apply list_elem_of_fmap in Hin as (o & Hid & Ho).
  exists o. split_and!; [done|done|].
  destruct (Hvalues o Ho) as (_ & r & Hf & Hst & _). simpl in *.
  rewrite <- Hid in Hf.
  apply find_some_elem in Hf as [Hr Hc%carries_spec].
  destruct Hc as (Hlen & Hr0' & _).
  apply list_elem_of_fmap in Hr as (r1 & -> & _).
  destruct (update_row_spec oid ns r1) as (Hnew & _ & _ & H0).
  rewrite H0 in Hr0'. specialize (Hnew Hr0').
  rewrite Hst. unfold cell. by rewrite Hnew.
Qed.

(** X10. A granted status change shows in the listing it redirects to. With
    no request failing and a row carrying the identifier: when [set_status]
    answers with a redirect, it is the redirect to the orders listing of the
    new status, and that listing, opened by anyone, holds the order, under the
    new status. *)
Theorem granted_status_change_is_listed role_map req oid ns w endpoint values
    w1 role_map' req' :
  no_faults w →
  (∃ r : row, r ∈ w_sheet w ∧ r !! 0 = Some (Some oid)) →
  app.set_status role_map req oid ns w = (Ok (app.Redirect endpoint values), w1) →
  endpoint = "orders" ∧
  values = [("status", Some ns); ("uid", app.request_uid req)] ∧
  ∃ res w2 o,
    app.orders role_map' req' ns w1
    = (Ok (app.OrdersView (app.request_uid req') ns res
             (app.request_role role_map' req')), w2) ∧
    o ∈ res ∧ sheets.o_id o = Some oid ∧ sheets.o_status o = Some ns.
Proof.
  intros Hok Hrow Hrun.
  destruct (set_status_outcome role_map req oid ns w)
    as (resp & w' & Hrun' & [(code & -> & _)|[-> (w0 & Hs0 & Hf0 & Hupd)]]);
    rewrite Hrun in Hrun'; [discriminate|].
  injection Hrun' as -> -> <-. split; [done|]. split; [done|].
  assert (Hok0 : no_faults w0) by (intros n; rewrite Hf0; apply Hok).
  rewrite (update_status_run _ _ _ Hok0) in Hupd. injection Hupd as <-.
  unfold app.orders.
  set (status := if bool_decide (ns ≠ "all") then Some ns else None).
  assert (Hstatus : truthy status = true → status = Some ns).
  { subst status. by case_bool_decide. }
  destruct (updated_order_listed status oid ns (w_sheet w) Hstatus Hrow)
    as (o & Ho & Hid & Hst).
  eexists _, _, o.
  erewrite bind_run by (apply get_orders_run; apply Hok0).
  simpl. rewrite Hs0. done.
Qed.

Lemma granted_status_change_is_listed_witness :
  ∃ res w2 o,
    app.orders app.ROLE_MAP anonymous_visit "ожидает поставки"
      (app.set_status one_picker picker_visit "19" "ожидает поставки"
         (quiet_world plain_sheet)).2
    = (Ok (app.OrdersView None "ожидает поставки" res None), w2) ∧
    o ∈ res ∧ sheets.o_id o = Some "19" ∧
    sheets.o_status o = Some "ожидает поставки".
Proof.
  eapply (granted_status_change_is_listed one_picker picker_visit "19"
            "ожидает поставки" (quiet_world plain_sheet)).
  - intros n. reflexivity.
  - exists [Some "19"; Some "оформлен"].
    split; [apply list_elem_of_here|reflexivity].
  - reflexivity.
Defined.

(** ** Submitting an order *)

Lemma submit_order_run uid (form : gmap string string) w items w' :
  app.parse_items form = Some items →
  sheets.append_order (submitted_order_data form w) items (after_defaults form w)
  = (Ok tt, w') →
  app.submit_order uid form w = (Ok (app.Redirect "index" [("uid", uid)]), w').
Proof.
  intros Hparse Happend. unfold app.submit_order. rewrite Hparse.
  change (app.dict_item (app.form_order_data form) "id")
    with (form !! "order_id").
  unfold submitted_order_data, submitted_id, submitted_date, after_defaults
    in Happend.
  destruct (truthy (form !! "order_id")) eqn:Hid; cbn [negb].
  - erewrite bind_run by reflexivity.
    change (app.dict_item (app.form_order_data form) "date")
      with (form !! "date").
    rewrite (insert_id (app.form_order_data form) "id") in Happend
      by reflexivity.
    destruct (truthy (form !! "date")) eqn:Hdate; cbn [negb].
    + erewrite bind_run by reflexivity.
      rewrite (insert_id (app.form_order_data form) "date") in Happend
        by reflexivity.
      by erewrite bind_run by apply Happend.
    + erewrite bind_run by reflexivity.
      by erewrite bind_run by apply Happend.
  - erewrite bind_run by reflexivity.
    change (app.dict_item
              (<["id":=Some (w_epoch w (w_ticks w))]> (app.form_order_data form))
              "date")
      with (form !! "date").
    destruct (truthy (form !! "date")) eqn:Hdate; cbn [negb].
    + erewrite bind_run by reflexivity.
      rewrite (insert_id (<["id":=Some (w_epoch w (w_ticks w))]>
                            (app.form_order_data form)) "date") in Happend
        by reflexivity.
      by erewrite bind_run by apply Happend.
    + erewrite bind_run by reflexivity.
      by erewrite bind_run by apply Happend.
Qed.

Lemma after_defaults_store (form : gmap string string) w :
  w_sheet (after_defaults form w) = w_sheet w ∧
  w_faults (after_defaults form w) = w_faults w ∧
  w_calls (after_defaults form w) = w_calls w ∧
  w_now (after_defaults form w) = w_now w.
Proof.
  unfold after_defaults.
  by destruct (truthy (form !! "date")), (truthy (form !! "order_id")).
Qed.

Lemma new_order_creator role_map req w :
  app.request_role role_map req ∈ creator_roles →
  app.method req = app.POST →
  app.new_order role_map req w
  = app.submit_order (app.request_uid req) (app.form req) w.
Proof.
  intros Hrole Hpost. unfold app.new_order.
  rewrite bool_decide_eq_false_2 by (by intros ?). by rewrite Hpost.
Qed.

Lemma submitted_rows_lookup (form : gmap string string) w now t k i (r : row) :
  rows_at (submitted_order_data form w) now t
    (app.item_fields form <$> seq 0 k) !! i = Some r →
  i < k ∧ r = submitted_row form w i.
Proof.
  rewrite rows_at_lookup, list_lookup_fmap.
  destruct (decide (i < k)) as [Hi|Hi].
  - rewrite lookup_seq_lt by done. simpl. intros [= <-]. done.
  - rewrite lookup_seq_ge by lia. done.
Qed.

(** X11. What a granted submission stores. For a manager or admin whose POST
    reaches a store that answers: the answer is the redirect to the menu, and
    the table gains one row per parsed item, each of 20 cells: the identifier
    of the form, or the timestamp of the clock when the form gives none; the
    status of a new order, whatever status the form carries; the date of the
    form, or of the clock, the same on every row; the fields of the order and
    of the item as the form holds them, absent ones as [None]; and four empty
    finance cells. *)
Theorem new_order_stores_order role_map req w :
  app.request_role role_map req ∈ creator_roles →
  app.method req = app.POST →
  no_faults w →
  ∃ items rows w',
    app.new_order role_map req w
    = (Ok (app.Redirect "index" [("uid", app.request_uid req)]), w') ∧
    app.parse_items (app.form req) = Some items ∧
    w_sheet w' = w_sheet w ++ rows ∧
    length rows = length items ∧
    ∀ i (r : row), rows !! i = Some r → r = submitted_row (app.form req) w i.
Proof.
  intros Hrole Hpost Hok. rewrite new_order_creator by done.
  destruct (item_loop_fuel (app.form req)) as (k & _ & Hparse & _).
  destruct (after_defaults_store (app.form req) w) as (Hs & Hf & Hc & Hn).
  eexists _, _, _. split; [|split; [exact Hparse|]].
  - eapply submit_order_run; [exact Hparse|].
    apply append_order_run; rewrite Hf; apply Hok.
  - simpl. rewrite Hs. split_and!; [done|apply length_rows_at|].
    intros i r Hr. by apply submitted_rows_lookup in Hr as [_ ->].
Qed.

Lemma new_order_stores_order_witness :
  ∃ items rows w',
    app.new_order one_manager manager_submission (quiet_world plain_sheet)
    = (Ok (app.Redirect "index" [("uid", Some "234567890")]), w') ∧
    app.parse_items gap_form = Some items ∧
    w_sheet w' = plain_sheet ++ rows ∧
    length rows = length items.
Proof.
  destruct (new_order_stores_order one_manager manager_submission
              (quiet_world plain_sheet))
    as (items & rows & w' & Hrun & Hparse & Hsheet & Hlen & _).
  - apply list_elem_of_here.
  - reflexivity.
  - intros n. reflexivity.
  - exists items, rows, w'.
    split; [exact Hrun|]. split; [exact Hparse|].
    split; [exact Hsheet|exact Hlen].
Defined.

Lemma append_order_sheet_cases od (items : list dict) w :
  ∃ w',
    sheets.append_order od items w = (Ok tt, w') ∧
    (w_sheet w' = w_sheet w ∨
     w_sheet w' = w_sheet w ++ rows_at od (w_now w) (w_ticks w) items).
Proof.
  destruct (w_faults w (length (w_calls w))) as [msg|] eqn:Hread.
  - eexists. split; [by apply (append_order_read_failed _ _ _ msg)|]. by left.
  - destruct (w_faults w (S (length (w_calls w)))) as [msg|] eqn:Hwrite.
    + destruct (append_order_write_failed od items w msg Hread Hwrite)
        as (rng & rows & Hrun).
      eexists. split; [exact Hrun|]. by left.
    + eexists. split; [by apply append_order_run|]. by right.
Qed.

(** X12. A submission without items is answered as a success and stores
    nothing. When the SKU of item 0 is absent or empty, the POST of a manager
    or admin, whatever the other fields and whatever the store answers, gets
    the redirect to the menu, and the table is as it was: the order leaves
    no row. *)
Theorem empty_submission_stores_nothing role_map req w :
  app.request_role role_map req ∈ creator_roles →
  app.method req = app.POST →
  truthy (app.form req !! "item_0_sku") = false →
  ∃ w',
    app.new_order role_map req w
    = (Ok (app.Redirect "index" [("uid", app.request_uid req)]), w') ∧
    app.parse_items (app.form req) = Some [] ∧
    w_sheet w' = w_sheet w.
Proof.
  intros Hrole Hpost Hsku. rewrite new_order_creator by done.
  assert (Hparse : app.parse_items (app.form req) = Some []).
  { unfold app.parse_items. simpl.
    change (app.item_prefix 0 +:+ "sku") with "item_0_sku". by rewrite Hsku. }
  destruct (after_defaults_store (app.form req) w) as (Hs & _).
  destruct (append_order_sheet_cases
              (submitted_order_data (app.form req) w) []
              (after_defaults (app.form req) w)) as (w' & Hrun & Hsheet).
  exists w'. split; [by eapply submit_order_run|]. split; [done|].
  simpl in Hsheet. rewrite app_nil_r, Hs in Hsheet. by destruct Hsheet.
Qed.

Lemma empty_submission_stores_nothing_witness :
  ∃ w',
    app.new_order one_manager
      (app.Request {[ "uid" := "234567890" ]} app.POST {[ "order_id" := "17" ]})
      (quiet_world plain_sheet)
    = (Ok (app.Redirect "index" [("uid", Some "234567890")]), w') ∧
    w_sheet w' = plain_sheet.
Proof.
  destruct (empty_submission_stores_nothing one_manager
              (app.Request {[ "uid" := "234567890" ]} app.POST
                 {[ "order_id" := "17" ]})
              (quiet_world plain_sheet)) as (w' & Hrun & _ & Hsheet).
  - apply list_elem_of_here.
  - reflexivity.
  - reflexivity.
  - exists w'. split; [exact Hrun|exact Hsheet].
Defined.

Lemma stored_submitted_items (form : gmap string string) k :
  stored_item <$> (app.item_fields form <$> seq 0 k)
  = submitted_item form <$> seq 0 k.
Proof. rewrite <- list_fmap_compose. by apply list_fmap_ext. Qed.

(** X13. A stored submission shows in the listing of new orders. For a
    manager or admin whose POST carries a SKU for item 0 and an identifier
    (its own or the timestamp) that no row of two cells carries yet, no
    request failing: the listing of the status of new orders, opened by
    anyone after the submission, is the listing as it was before followed by
    one record for the new order, with the identifier, date and customer of
    the submission and the items of the form, in their order. *)
Theorem submitted_order_is_listed role_map req w role_map' req' :
  app.request_role role_map req ∈ creator_roles →
  app.method req = app.POST →
  no_faults w →
  truthy (app.form req !! "item_0_sku") = true →
  (∀ r : row, r ∈ w_sheet w → 2 ≤ length r →
              r !! 0 ≠ Some (submitted_id (app.form req) w)) →
  ∃ items w1 before w0 after w2,
    app.parse_items (app.form req) = Some items ∧
    app.new_order role_map req w
    = (Ok (app.Redirect "index" [("uid", app.request_uid req)]), w1) ∧
    app.orders role_map' req' "оформлен" w
    = (Ok (app.OrdersView (app.request_uid req') "оформлен" before
             (app.request_role role_map' req')), w0) ∧
    app.orders role_map' req' "оформлен" w1
    = (Ok (app.OrdersView (app.request_uid req') "оформлен" after
             (app.request_role role_map' req')), w2) ∧
    after = before ++
      [sheets.Order (submitted_id (app.form req) w) (Some "оформлен")
         (submitted_date (app.form req) w) (app.form req !! "customer_name")
         (submitted_item (app.form req) <$> seq 0 (length items))].
Proof.
  intros Hrole Hpost Hok Hsku Hfresh. rewrite new_order_creator by done.
  destruct (item_loop_fuel (app.form req)) as (k & _ & Hparse & Hgap & _).
  destruct (after_defaults_store (app.form req) w) as (Hs & Hf & Hc & Hn).
  destruct k as [|k].
  { change (sku_key 0) with "item_0_sku" in Hgap. congruence. }
  eexists _, _, _, _, _, _. split; [exact Hparse|]. split.
  { eapply submit_order_run; [exact Hparse|].
    apply append_order_run; rewrite Hf; apply Hok. }
  unfold app.orders.
  rewrite bool_decide_eq_true_2 by discriminate.
  erewrite bind_run by (apply get_orders_run, Hok).
  erewrite bind_run by (apply get_orders_run; simpl; rewrite Hf; apply Hok).
  split; [reflexivity|]. split; [reflexivity|].
  cbn [w_sheet]. rewrite Hs, foldl_step_appended; [|done|exact Hfresh].
  f_equal. rewrite length_fmap, length_seq.
  set (items := app.item_fields (app.form req) <$> seq 0 (S k)).
  assert (Hitems : ∃ item rest, items = item :: rest) by (by eexists _, _).
  destruct Hitems as (item & rest & Hitems). rewrite Hitems.
  rewrite <- Hitems. unfold stored_order. subst items.
  rewrite stored_submitted_items. reflexivity.
Qed.

Lemma submitted_order_is_listed_witness :
  ∃ w1 after w2,
    app.new_order one_manager manager_submission (quiet_world plain_sheet)
    = (Ok (app.Redirect "index" [("uid", Some "234567890")]), w1) ∧
    app.orders app.ROLE_MAP anonymous_visit "оформлен" w1
    = (Ok (app.OrdersView None "оформлен" after None), w2) ∧
    length after = 2.
Proof.
  destruct (submitted_order_is_listed one_manager manager_submission
              (quiet_world plain_sheet) app.ROLE_MAP anonymous_visit)
    as (items & w1 & before & w0 & after & w2 & _ & Hnew & Hbefore & Hafter & Hres).
  - apply list_elem_of_here.
  - reflexivity.
  - intros n. reflexivity.
  - reflexivity.
  - intros r ->%list_elem_of_singleton _. discriminate.
  - exists w1, after, w2. split; [exact Hnew|]. split; [exact Hafter|].
    rewrite Hres, length_app. simpl.
    injection Hbefore as <- _. reflexivity.
Defined.

(** ** The chat entry point *)

Lemma pretty_N_go_length x s :
  String.length s ≤ String.length (pretty_N_go x s).
Proof.
  revert s. induction (N.lt_wf_0 x) as [x _ IH]; intros s.
  assert (x = 0 ∨ 0 < x)%N as [->|Hpos] by lia.
  - by rewrite pretty_N_go_0.
  - rewrite pretty_N_go_step by done.
    etrans; [|apply IH; by apply N.div_lt]. simpl. lia.
Qed.

Lemma pretty_N_nonempty (x : N) : pretty x ≠ "".
Proof.
  unfold pretty, pretty_N. case_decide as Hx; [done|].
  rewrite pretty_N_go_step by lia. intros Hempty.
  pose proof (pretty_N_go_length (x `div` 10)
                (String (pretty_N_char (x `mod` 10)) "")) as Hlen.
  rewrite Hempty in Hlen. simpl in Hlen. lia.
Qed.

Lemma pretty_Z_nonempty (x : Z) : pretty x ≠ "".
Proof.
  destruct x as [|p|p]; unfold pretty, pretty_Z; [done| |done].
  apply pretty_N_nonempty.
Qed.

Lemma advisory_nonempty s : s +:+ bot.advisory ≠ s.
Proof.
  intros Heq. apply (f_equal String.length) in Heq.
  rewrite string_length_app in Heq.
  assert (0 < String.length bot.advisory) by (vm_compute; lia). lia.
Qed.

(** X14. The reply to [/start]: one keyboard of one button, whose link is
    the base URL followed by ["?uid="] and the decimal identifier of the
    user, so that the links of two users differ; the text is the welcome,
    followed by the advisory exactly when the role map gives the user no role
    (none, or the empty string). *)
Theorem start_reply role_map url (uid : Z) :
  bot.reply_keyboard (bot.start role_map url uid)
  = [[bot.KeyboardButton "Открыть CRM" (url +:+ "?uid=" +:+ pretty uid)]] ∧
  (∀ uid' : Z,
     bot.reply_keyboard (bot.start role_map url uid')
     = bot.reply_keyboard (bot.start role_map url uid) → uid' = uid) ∧
  (truthy (role_map !! pretty uid) = true →
   bot.reply_text (bot.start role_map url uid) = bot.welcome) ∧
  (truthy (role_map !! pretty uid) = false →
   bot.reply_text (bot.start role_map url uid) = bot.welcome +:+ bot.advisory) ∧
  (bot.reply_text (bot.start role_map url uid) = bot.welcome ↔
   truthy (role_map !! pretty uid) = true).
Proof.
  unfold bot.start. simpl. split_and!.
  - done.
  - intros uid' [= Heq]. apply String.app_inj in Heq.
    apply String.app_inj in Heq. by apply pretty_Z_inj in Heq.
  - by intros ->.
  - by intros ->.
  - destruct (truthy (role_map !! pretty uid)); simpl; [done|].
    split; [|done]. by intros ?%advisory_nonempty.
Qed.

Lemma request_role_of_uid role_map (uid : Z) req :
  app.args req !! "uid" = Some (pretty uid) →
  app.request_role role_map req = role_map !! pretty uid.
Proof.
  intros Huid. unfold app.request_role, app.request_uid, app.get_role.
  rewrite Huid. simpl.
  rewrite bool_decide_eq_true_2; [done|apply pretty_Z_nonempty].
Qed.

(** The role maps the two programs ship agree on every user but one. *)
Lemma shipped_maps_agree (uid : Z) :
  uid ≠ 379185153%Z → bot.ROLE_MAP !! pretty uid = app.ROLE_MAP !! pretty uid.
Proof.
  intros Hne. unfold bot.ROLE_MAP, app.ROLE_MAP.
  rewrite lookup_empty. symmetry. apply lookup_singleton_ne.
  change "379185153" with (pretty 379185153%Z).
  intros Heq. by apply pretty_Z_inj in Heq.
Qed.

(** X15. The advisory of the bot and the refusals of the web application
    agree wherever the role map of the bot and that of the application
    agree on the user: a user to whom [/start] shows the advisory, and who
    comes with the identifier of the link, is refused by both mutating
    endpoints, with no effect: [new_order] and [set_status] answer 403,
    whatever the method, the order and the target. The maps the source
    ships agree on every user but 379185153, and there the two programs
    part: the bot shows the advisory to that user too, whom the
    application serves as admin. *)
Theorem advised_user_is_refused bot_map app_map url (uid : Z) req oid ns w :
  (bot_map !! pretty uid = app_map !! pretty uid →
   bot.reply_text (bot.start bot_map url uid) ≠ bot.welcome →
   app.args req !! "uid" = Some (pretty uid) →
   app.new_order app_map req w = (Ok (app.Abort 403), w) ∧
   app.set_status app_map req oid ns w = (Ok (app.Abort 403), w)) ∧
  (uid ≠ 379185153%Z →
   bot.reply_text (bot.start bot.ROLE_MAP url uid) ≠ bot.welcome ∧
   bot.ROLE_MAP !! pretty uid = app.ROLE_MAP !! pretty uid) ∧
  (uid = 379185153%Z →
   app.args req !! "uid" = Some (pretty uid) →
   bot.reply_text (bot.start bot.ROLE_MAP url uid) ≠ bot.welcome ∧
   app.request_role app.ROLE_MAP req = Some "admin").
Proof.
  assert (Hadvice : ∀ u : Z,
            bot.reply_text (bot.start bot.ROLE_MAP url u) ≠ bot.welcome).
  { intros u. unfold bot.start, bot.ROLE_MAP. rewrite lookup_empty. simpl.
    apply advisory_nonempty. }
  split_and!.
  - intros Hmaps Hadvised Huid.
    assert (Hfalsy : truthy (app_map !! pretty uid) = false).
    { rewrite <- Hmaps.
      destruct (truthy (bot_map !! pretty uid)) eqn:Ht; [|done].
      destruct Hadvised. unfold bot.start. by rewrite Ht. }
    pose proof (request_role_of_uid app_map uid req Huid) as Hrole.
    assert (Hcases : app.request_role app_map req = None
                     ∨ app.request_role app_map req = Some "").
    { rewrite Hrole. destruct (app_map !! pretty uid) as [rl|]; [|by left].
      right. simpl in Hfalsy. apply bool_decide_eq_false in Hfalsy.
      destruct (decide (rl = "")) as [->|]; [done|]. by destruct Hfalsy. }
    split.
    + apply new_order_denied.
      destruct Hcases as [-> | ->]; [apply none_not_creator|].
      apply not_creator; discriminate.
    + apply set_status_outside.
      * destruct Hcases as [-> | ->]; discriminate.
      * rewrite !elem_of_cons, elem_of_nil.
        destruct Hcases as [-> | ->]; intros [H|[H|[]]]; discriminate.
  - intros Hne. split; [apply Hadvice|by apply shipped_maps_agree].
  - intros -> Huid. split; [apply Hadvice|].
    by rewrite (request_role_of_uid _ _ _ Huid).
Qed.

Lemma advised_user_is_refused_witness :
  app.new_order app.ROLE_MAP stranger_visit (quiet_world plain_sheet)
  = (Ok (app.Abort 403), quiet_world plain_sheet) ∧
  app.set_status app.ROLE_MAP stranger_visit "19" "сборка"
    (quiet_world plain_sheet)
  = (Ok (app.Abort 403), quiet_world plain_sheet).
Proof.
  destruct (advised_user_is_refused bot.ROLE_MAP app.ROLE_MAP
              "http://localhost:5000" 345678901%Z stranger_visit "19" "сборка"
              (quiet_world plain_sheet)) as (Hagree & Hshipped & _).
  destruct Hshipped as [Hadvised Hmaps]; [discriminate|].
  apply Hagree; [exact Hmaps|exact Hadvised|reflexivity].
Defined.

(** ** Credentials *)

Lemma get_service_cases (a : sheets.auth_world) :
  (∃ c, sheets._get_service a = (Some c, a) ∧ sheets.valid c = true ∧
        ∃ content, sheets.token_file a = Some content ∧
                   sheets.from_authorized_user_file a content = Some c) ∨
  (∃ c e, sheets._get_service a
          = (Some c, sheets.write_token c (sheets.with_event e a)) ∧
          (e = sheets.Refreshed ∨ e = sheets.FlowRun) ∧
          (e = sheets.Refreshed →
           ∃ content c0,
             sheets.token_file a = Some content ∧
             sheets.from_authorized_user_file a content = Some c0 ∧
             sheets.valid c0 = false ∧ sheets.expired c0 = true ∧
             truthy (sheets.refresh_token c0) = true ∧
             sheets.refresh a c0 = Some c)) ∨
  (∃ a', sheets._get_service a = (None, a') ∧
         sheets.token_file a' = sheets.token_file a ∧
         ∀ content, sheets.TokenWritten content ∈ sheets.auth_events a' →
                    sheets.TokenWritten content ∈ sheets.auth_events a).
Proof.
  unfold sheets._get_service.
  destruct (sheets.token_file a) as [content|] eqn:Hfile.
  - destruct (sheets.from_authorized_user_file a content) as [c0|] eqn:Hparse.
    + destruct (sheets.valid c0) eqn:Hvalid; simpl.
      * left. exists c0. split_and!; [done|done|]. by exists content.
      * destruct (sheets.expired c0 && truthy (sheets.refresh_token c0)) eqn:Hexp.
        -- apply andb_true_iff in Hexp as [Hexp Htok].
           destruct (sheets.refresh a c0) as [c|] eqn:Hrefresh.
           ++ right. left. exists c, sheets.Refreshed.
              split_and!; [done|by left|]. intros _.
              exists content, c0. done.
           ++ right. right. eexists. split_and!; [done|done|].
              intros x [Hx|Hx%list_elem_of_singleton]%elem_of_app; done.
        -- destruct (sheets.run_local_server a) as [c|] eqn:Hflow.
           ++ right. left. exists c, sheets.FlowRun.
              split_and!; [done|by right|done].
           ++ right. right. eexists. split_and!; [done|done|].
              intros x [Hx|Hx%list_elem_of_singleton]%elem_of_app; done.
    + right. right. exists a. done.
  - simpl. destruct (sheets.run_local_server a) as [c|] eqn:Hflow.
    + right. left. exists c, sheets.FlowRun.
      split_and!; [done|by right|done].
    + right. right. eexists. split_and!; [done|done|].
      intros x [Hx|Hx%list_elem_of_singleton]%elem_of_app; done.
Qed.

(** X16. What one call of [_get_service] does to the cached token. A valid
    cached credential is returned as it is, and nothing is refreshed, asked
    or written. Otherwise the credential comes from one refresh or from one
    interactive flow, never both; the refresh is taken only for a cached
    credential that is expired and has a refresh token; and the token file
    then holds the credential that is returned. When a library call raises,
    the token file is left as it was. *)
Theorem get_service_token_file (a : sheets.auth_world) :
  ∃ res a',
    sheets._get_service a = (res, a') ∧
    (∀ content c, sheets.token_file a = Some content →
                  sheets.from_authorized_user_file a content = Some c →
                  sheets.valid c = true → res = Some c ∧ a' = a) ∧
    (res = None → sheets.token_file a' = sheets.token_file a) ∧
    (∀ c, res = Some c →
          a' = a ∨
          (sheets.token_file a' = Some (sheets.to_json c) ∧
           ∃ e, (e = sheets.Refreshed ∨ e = sheets.FlowRun) ∧
                sheets.auth_events a'
                = sheets.auth_events a
                  ++ [e; sheets.TokenWritten (sheets.to_json c)])) ∧
    (sheets.Refreshed ∈ sheets.auth_events a' →
     sheets.Refreshed ∉ sheets.auth_events a →
     ∃ content c0,
       sheets.token_file a = Some content ∧
       sheets.from_authorized_user_file a content = Some c0 ∧
       sheets.valid c0 = false ∧ sheets.expired c0 = true ∧
       truthy (sheets.refresh_token c0) = true).
Proof.
  assert (Hrefresh_only :
    ∀ a', sheets.auth_events a' = sheets.auth_events a
          ∨ (∃ c, sheets.auth_events a'
                  = sheets.auth_events a
                    ++ [sheets.FlowRun; sheets.TokenWritten c])
          ∨ sheets.auth_events a' = sheets.auth_events a ++ [sheets.FlowRun] →
          sheets.Refreshed ∈ sheets.auth_events a' →
          sheets.Refreshed ∈ sheets.auth_events a).
  { intros a' [->|[[c ->]| ->]]; [done| |].
    - intros [?|Hin]%elem_of_app; [done|].
      apply elem_of_cons in Hin as [?|Hin]; [done|].
      apply list_elem_of_singleton in Hin. done.
    - intros [?|Hin%list_elem_of_singleton]%elem_of_app; done. }
  unfold sheets._get_service.
  destruct (sheets.token_file a) as [content|] eqn:Hfile.
  - destruct (sheets.from_authorized_user_file a content) as [c0|] eqn:Hparse.
    + destruct (sheets.valid c0) eqn:Hvalid; simpl.
      * eexists _, _. split; [done|]. split_and!.
        -- intros ? ? [= <-] Hp. rewrite Hparse in Hp. by injection Hp as <-.
        -- done.
        -- intros c _. by left.
        -- intros Hin Hnot. by destruct Hnot.
      * destruct (sheets.expired c0 && truthy (sheets.refresh_token c0)) eqn:Hexp.
        -- apply andb_true_iff in Hexp as [Hexp Htok].
           destruct (sheets.refresh a c0) as [c|] eqn:Hrefresh;
             (eexists _, _; split; [done|]); simpl; split_and!.
           ++ intros ? ? [= <-] Hp. rewrite Hparse in Hp.
              injection Hp as <-. congruence.
           ++ done.
           ++ intros ? [= <-]. right. split; [done|].
              exists sheets.Refreshed. split; [by left|].
              by rewrite <- app_assoc.
           ++ intros _ _. by exists content, c0.
           ++ intros ? ? [= <-] Hp. rewrite Hparse in Hp.
              injection Hp as <-. congruence.
           ++ done.
           ++ done.
           ++ intros _ _. by exists content, c0.
        -- destruct (sheets.run_local_server a) as [c|] eqn:Hflow;
             (eexists _, _; split; [done|]); simpl; split_and!.
           ++ intros ? ? [= <-] Hp. rewrite Hparse in Hp.
              injection Hp as <-. congruence.
           ++ done.
           ++ intros ? [= <-]. right. split; [done|].
              exists sheets.FlowRun. split; [by right|].
              by rewrite <- app_assoc.
           ++ intros Hin Hnot. destruct Hnot.
              apply (Hrefresh_only
                       (sheets.write_token c (sheets.with_event sheets.FlowRun a)));
                [|done].
              right. left. exists (sheets.to_json c). simpl.
              by rewrite <- app_assoc.
           ++ intros ? ? [= <-] Hp. rewrite Hparse in Hp.
              injection Hp as <-. congruence.
           ++ done.
           ++ done.
           ++ intros Hin Hnot. destruct Hnot.
              apply (Hrefresh_only (sheets.with_event sheets.FlowRun a));
                [|done].
              right. right. done.
    + eexists _, _. split; [done|]. split_and!.
      * intros ? ? [= <-] Hp. congruence.
      * done.
      * done.
      * intros Hin Hnot. by destruct Hnot.
  - simpl. destruct (sheets.run_local_server a) as [c|] eqn:Hflow;
      (eexists _, _; split; [done|]); simpl; split_and!.
    + done.
    + done.
    + intros ? [= <-]. right. split; [done|].
      exists sheets.FlowRun. split; [by right|]. by rewrite <- app_assoc.
    + intros Hin Hnot. destruct Hnot.
      apply (Hrefresh_only
               (sheets.write_token c (sheets.with_event sheets.FlowRun a)));
        [|done].
      right. left. exists (sheets.to_json c). simpl. by rewrite <- app_assoc.
    + done.
    + done.
    + done.
    + intros Hin Hnot. destruct Hnot.
      apply (Hrefresh_only (sheets.with_event sheets.FlowRun a)); [|done].
      right. right. done.
Qed.

(** X17. The token file carries the credential to the next call. When a
    call of [_get_service] returns a valid credential, and the library reads
    back from a token file the credential that was written to it, the next
    call returns the same credential and neither refreshes, nor asks, nor
    writes. *)
Theorem get_service_reuses_token (a a' : sheets.auth_world) c :
  sheets._get_service a = (Some c, a') →
  sheets.valid c = true →
  sheets.from_authorized_user_file a (sheets.to_json c) = Some c →
  sheets._get_service a' = (Some c, a').
Proof.
  intros Hrun Hvalid Hround.
  destruct (get_service_cases a)
    as [(c1 & Hrun1 & _ & content & Hfile & Hparse)
       |[(c1 & e & Hrun1 & _)|(a1 & Hrun1 & _)]];
    rewrite Hrun in Hrun1; [| |discriminate].
  - injection Hrun1 as <- <-. unfold sheets._get_service.
    rewrite Hfile, Hparse. simpl. by rewrite Hvalid.
  - injection Hrun1 as <- ->. unfold sheets._get_service. simpl.
    rewrite Hround. simpl. by rewrite Hvalid.
Qed.

Lemma get_service_reuses_token_witness :
  sheets._get_service (sheets._get_service first_start).2
  = (Some granted_credential, (sheets._get_service first_start).2).
Proof.
  apply (get_service_reuses_token first_start); reflexivity.
Defined.

(** ** The invariant of the table *)

(** X18. [update_status] keeps the invariant the filter of [get_orders]
    relies on: when no request fails and the rows of two cells or more that
    share an identifier share their status before, they do so after. *)
Theorem update_status_keeps_consistent oid ns w :
  no_faults w → consistent (w_sheet w) →
  ∃ w', sheets.update_status oid ns w = (Ok tt, w') ∧ consistent (w_sheet w').
Proof.
  intros Hok Hcons. eexists. split; [by apply update_status_run|]. simpl.
  intros r1' r2' (r1 & -> & Hr1)%list_elem_of_fmap
         (r2 & -> & Hr2)%list_elem_of_fmap Hlen1 Hlen2 Hid.
  destruct (update_row_spec oid ns r1) as (Hnew1 & Hsame1 & _ & H01).
  destruct (update_row_spec oid ns r2) as (Hnew2 & Hsame2 & _ & H02).
  rewrite H01, H02 in Hid.
  destruct (decide (r1 !! 0 = Some (Some oid))) as [Hoid|Hother].
  - rewrite Hnew1, Hnew2; [done|congruence|done].
  - rewrite Hsame1 in * by done. rewrite Hsame2 in * by congruence.
    by apply Hcons.
Qed.

Lemma update_status_keeps_consistent_witness :
  ∃ w', sheets.update_status "19" "сборка" (quiet_world plain_sheet) = (Ok tt, w') ∧
        consistent (w_sheet w').
Proof.
  apply (update_status_keeps_consistent "19" "сборка" (quiet_world plain_sheet)).
  - intros n. reflexivity.
  - intros r1 r2 ->%list_elem_of_singleton ->%list_elem_of_singleton _ _ _.
    reflexivity.
Defined.

Lemma rows_at_elem od now (items : list dict) (r : row) :
  ∀ t, r ∈ rows_at od now t items →
       length r = 20 ∧
       r !! 0 = Some (dict_get od "id" (Some "")) ∧
       r !! 1 = Some (dict_get od "status" (Some "оформлен")).
Proof.
  induction items as [|item items IH]; intros t; simpl.
  - by intros ?%elem_of_nil.
  - intros [->|Hr]%elem_of_cons; [done|]. by eapply IH.
Qed.

(** X19. [append_order] keeps that invariant when the order is new: with no
    request failing, a consistent table, and an identifier that no row of two
    cells or more carries, the table with the rows of the order is
    consistent. *)
Theorem append_order_keeps_consistent od (items : list dict) w :
  no_faults w → consistent (w_sheet w) →
  (∀ r : row, r ∈ w_sheet w → 2 ≤ length r →
              r !! 0 ≠ Some (dict_get od "id" (Some ""))) →
  ∃ w', sheets.append_order od items w = (Ok tt, w') ∧ consistent (w_sheet w').
Proof.
  intros Hok Hcons Hfresh. eexists.
  split; [apply append_order_run; apply Hok|]. simpl.
  intros r1 r2 [Hr1|Hr1]%elem_of_app [Hr2|Hr2]%elem_of_app Hlen1 Hlen2 Hid.
  - by apply Hcons.
  - apply rows_at_elem in Hr2 as (_ & Hid2 & _).
    destruct (Hfresh r1 Hr1 Hlen1). congruence.
  - apply rows_at_elem in Hr1 as (_ & Hid1 & _).
    destruct (Hfresh r2 Hr2 Hlen2). congruence.
  - apply rows_at_elem in Hr1 as (_ & _ & Hst1).
    apply rows_at_elem in Hr2 as (_ & _ & Hst2). congruence.
Qed.

Lemma append_order_keeps_consistent_witness :
  ∃ w', sheets.append_order undated_order two_items (quiet_world plain_sheet)
        = (Ok tt, w') ∧ consistent (w_sheet w').
Proof.
  apply (append_order_keeps_consistent undated_order two_items
           (quiet_world plain_sheet)).
  - intros n. reflexivity.
  - intros r1 r2 ->%list_elem_of_singleton ->%list_elem_of_singleton _ _ _.
    reflexivity.
  - intros r ->%list_elem_of_singleton _. discriminate.
Defined.

(** ** An order that is not there *)

Lemma collect_updates_none oid ns (rows : list row) :
  (∀ r : row, r ∈ rows → r !! 0 ≠ Some (Some oid)) →
  ∀ start, sheets.collect_updates oid ns start rows = [].
Proof.
  induction rows as [|r rows IH]; intros Habsent start; simpl; [done|].
  destruct (sheets.row_matches oid r) eqn:Hm.
  - apply row_matches_spec in Hm. destruct (Habsent r); [by left|done].
  - apply IH. intros x Hx. apply Habsent. by right.
Qed.

(** X20. The status change of an order that is in no row. The admin is
    answered as for a success, with the redirect to the listing of the
    target status, though nothing is changed: whatever the store answers,
    the table is as it was and the one request sent is the read of the
    table. *)
Theorem admin_unknown_order role_map req oid ns w :
  app.request_role role_map req = Some "admin" →
  (∀ r : row, r ∈ w_sheet w → r !! 0 ≠ Some (Some oid)) →
  ∃ w',
    app.set_status role_map req oid ns w
    = (Ok (listing ns (app.request_uid req)), w') ∧
    w_sheet w' = w_sheet w ∧
    w_calls w' = w_calls w ++ [ValuesGet ColumnsAT].
Proof.
  intros Hrole Habsent.
  assert (Hupdate : ∃ w', sheets.update_status oid ns w = (Ok tt, w') ∧
                          w_sheet w' = w_sheet w ∧
                          w_calls w' = w_calls w ++ [ValuesGet ColumnsAT]).
  { unfold sheets.update_status, try_except_HttpError.
    unfold bind, values_get.
    destruct (w_faults w (length (w_calls w))) as [msg|]; simpl.
    - by eexists.
    - rewrite collect_updates_none by done. simpl. by eexists. }
  destruct Hupdate as (w' & Hrun & Hsheet & Hcalls).
  exists w'. split; [|done].
  unfold app.set_status. rewrite Hrole. simpl.
  change (app.allowed !! "admin") with (Some (@None (gmap string string))).
  cbv beta iota. erewrite bind_run by reflexivity.
  cbv beta iota. by erewrite bind_run by apply Hrun.
Qed.

Lemma admin_unknown_order_witness :
  ∃ w',
    app.set_status admin_map admin_visit "404" "завершён"
      (quiet_world plain_sheet)
    = (Ok (listing "завершён" (Some "379185153")), w') ∧
    w_sheet w' = plain_sheet.
Proof.
  destruct (admin_unknown_order admin_map admin_visit "404" "завершён"
              (quiet_world plain_sheet)) as (w' & Hrun & Hsheet & _).
  - reflexivity.
  - intros r ->%list_elem_of_singleton. discriminate.
  - exists w'. split; [exact Hrun|exact Hsheet].
Defined.
